(** * Modal: lifecycle and focus trap of the modal dialog controller

    A shallow embedding of the [Modal] class (components/Modal) together
    with the part of the browser it talks to: a heap of DOM elements, the
    document-level keydown listeners, the focused element, the timer queue
    of [setTimeout] and the callback queue of [requestAnimationFrame]. *)

From Stdlib Require Import ZArith String List Bool Lia.
From stdpp Require Import base list.
Import ListNotations.

Open Scope string_scope.
Open Scope list_scope.

(** ** The host: a heap of DOM elements *)

(** Listeners are the bound methods and closures of the one controller. *)
Inductive ClickHandler := HandleBackdropClick | CloseButtonClick.
Inductive KeyHandler := HandleEscapeKey | TrapFocus.

(** An element of the heap. Its identity is its index in the heap; text
    nodes are not elements and only [textContent] keeps text. *)
Record Element := {
  tagName : string;
  classList : list string;
  attributes : list (string * string);
  textContent : string;
  childNodes : list nat;
  clickListeners : list ClickHandler
}.

(** Markup as the host's HTML parser returns it for an [innerHTML] string. *)
#[warnings="-register-all"]
Inductive Markup := MNode (tag : string) (attrs : list (string * string)) (kids : list Markup).

Module Dom.

Definition blank (tag : string) : Element :=
  {| tagName := tag; classList := []; attributes := []; textContent := "";
     childNodes := []; clickListeners := [] |}.

Definition with_classList (v : list string) (e : Element) : Element :=
  {| tagName := tagName e; classList := v; attributes := attributes e;
     textContent := textContent e; childNodes := childNodes e;
     clickListeners := clickListeners e |}.

Definition with_attributes (v : list (string * string)) (e : Element) : Element :=
  {| tagName := tagName e; classList := classList e; attributes := v;
     textContent := textContent e; childNodes := childNodes e;
     clickListeners := clickListeners e |}.

Definition with_textContent (v : string) (e : Element) : Element :=
  {| tagName := tagName e; classList := classList e; attributes := attributes e;
     textContent := v; childNodes := childNodes e;
     clickListeners := clickListeners e |}.

Definition with_childNodes (v : list nat) (e : Element) : Element :=
  {| tagName := tagName e; classList := classList e; attributes := attributes e;
     textContent := textContent e; childNodes := v;
     clickListeners := clickListeners e |}.

Definition with_clickListeners (v : list ClickHandler) (e : Element) : Element :=
  {| tagName := tagName e; classList := classList e; attributes := attributes e;
     textContent := textContent e; childNodes := childNodes e;
     clickListeners := v |}.

(** [document.body] is the element at index 0 of every heap. *)
Definition BODY : nat := 0.

Definition mem (x : nat) (l : list nat) : bool := existsb (Nat.eqb x) l.

Definition without (x : nat) (l : list nat) : list nat :=
  List.filter (fun y => negb (Nat.eqb y x)) l.

Definition memStr (x : string) (l : list string) : bool := existsb (String.eqb x) l.

(** [document.createElement(tag)]: a fresh, detached element. *)
Definition createElement (tag : string) (d : list Element) : nat * list Element :=
  (length d, d ++ [blank tag]).

(** [el.className = cls], kept as its list of class tokens. *)
Definition setClassName (id : nat) (cls : list string) (d : list Element) : list Element :=
  alter (with_classList cls) id d.

(** [el.classList.add(c)] and [el.classList.remove(c)]. *)
Definition classListAdd (id : nat) (c : string) (d : list Element) : list Element :=
  alter (fun e => if memStr c (classList e) then e
                  else with_classList (classList e ++ [c]) e) id d.

Definition classListRemove (id : nat) (c : string) (d : list Element) : list Element :=
  alter (fun e => with_classList
                    (List.filter (fun x => negb (String.eqb x c)) (classList e)) e) id d.

Definition hasClass (id : nat) (c : string) (d : list Element) : bool :=
  match d !! id with
  | Some e => memStr c (classList e)
  | None => false
  end.

Definition hasAttribute (k : string) (e : Element) : bool :=
  existsb (fun kv => String.eqb (fst kv) k) (attributes e).

Definition getAttribute (k : string) (e : Element) : option string :=
  snd <$> List.find (fun kv => String.eqb (fst kv) k) (attributes e).

(** [el.setAttribute(k, v)] *)
Definition setAttribute (id : nat) (k v : string) (d : list Element) : list Element :=
  alter (fun e => with_attributes
     (List.filter (fun kv => negb (String.eqb (fst kv) k)) (attributes e) ++ [(k, v)]) e) id d.

Definition setTextContent (id : nat) (t : string) (d : list Element) : list Element :=
  alter (with_textContent t) id d.

(** [el.addEventListener('click', h)]: a listener already there is not
    added again. *)
Definition clickHandler_eqb (a b : ClickHandler) : bool :=
  match a, b with
  | HandleBackdropClick, HandleBackdropClick => true
  | CloseButtonClick, CloseButtonClick => true
  | _, _ => false
  end.

Definition addClickListener (id : nat) (h : ClickHandler) (d : list Element) : list Element :=
  alter (fun e => if existsb (clickHandler_eqb h) (clickListeners e) then e
                  else with_clickListeners (clickListeners e ++ [h]) e) id d.

(** [el.children], empty for an identity the heap does not hold. *)
Definition childrenOf (d : list Element) (id : nat) : list nat :=
  match d !! id with
  | Some e => childNodes e
  | None => []
  end.

(** [el.parentNode]: the element that lists [c] among its children. *)
Fixpoint findParent (c : nat) (d : list Element) (i : nat) : option nat :=
  match d with
  | [] => None
  | e :: r => if mem c (childNodes e) then Some i else findParent c r (S i)
  end.

Definition parentNode (d : list Element) (c : nat) : option nat := findParent c d 0.

(** [parent.removeChild(c)]. The host raises NotFoundError when [c] is not
    a child of [parent]; the one call of the controller is guarded by
    [parentNode], and the model leaves the heap as it is there. *)
Definition removeChild (parent c : nat) (d : list Element) : list Element :=
  alter (fun e => with_childNodes (without c (childNodes e)) e) parent d.

(** [parent.appendChild(c)] moves [c]: it leaves the child list it was in
    and becomes the last child of [parent]. (The host refuses a [c] that
    contains [parent]; callers of the controller pass no such content.) *)
Definition detach (c : nat) (d : list Element) : list Element :=
  (fun e => with_childNodes (without c (childNodes e)) e) <$> d.

Definition appendChild (parent c : nat) (d : list Element) : list Element :=
  alter (fun e => with_childNodes (childNodes e ++ [c]) e) parent (detach c d).

(** Elements built from parsed markup, allocated after the current heap. *)
Fixpoint build (m : Markup) (d : list Element) : nat * list Element :=
  match m with
  | MNode tag attrs kids =>
      let id := length d in
      let d1 := d ++ [with_attributes attrs (blank tag)] in
      let '(ids, d2) :=
        (fix buildAll (ms : list Markup) (d : list Element) : list nat * list Element :=
           match ms with
           | [] => ([], d)
           | k :: r =>
               let '(i, d') := build k d in
               let '(rest, d'') := buildAll r d' in
               (i :: rest, d'')
           end) kids d1 in
      (id, alter (with_childNodes ids) id d2)
  end.

Fixpoint buildAll (ms : list Markup) (d : list Element) : list nat * list Element :=
  match ms with
  | [] => ([], d)
  | k :: r =>
      let '(i, d') := build k d in
      let '(rest, d'') := buildAll r d' in
      (i :: rest, d'')
  end.

(** [el.innerHTML = str]: the children are dropped and replaced by the
    elements the parser finds in [str]; the empty string has none. *)
Definition setInnerHTML (parse : string -> list Markup) (id : nat) (str : string)
    (d : list Element) : list Element :=
  let ms := if String.eqb str "" then [] else parse str in
  let '(ids, d1) := buildAll ms (alter (with_childNodes []) id d) in
  alter (with_childNodes ids) id d1.

(** Descendants of [id] in document order. The heap length bounds the depth
    of any tree in it. *)
Fixpoint descendants (fuel : nat) (d : list Element) (id : nat) : list nat :=
  match fuel with
  | O => []
  | S f =>
      match d !! id with
      | None => []
      | Some e => flat_map (fun c => c :: descendants f d c) (childNodes e)
      end
  end.

(** [root.querySelectorAll(sel)] for a selector given as a predicate. *)
Definition querySelectorAll (sel : Element -> bool) (root : nat) (d : list Element) : list nat :=
  List.filter (fun i => match d !! i with Some e => sel e | None => false end)
              (descendants (length d) d root).

(** Ancestors of [c], nearest first: the bubbling path of an event. *)
Fixpoint ancestors (fuel : nat) (d : list Element) (c : nat) : list nat :=
  match fuel with
  | O => []
  | S f =>
      match parentNode d c with
      | Some p => p :: ancestors f d p
      | None => []
      end
  end.

End Dom.

(** ** Configuration *)

Inductive ModalSize := small | medium | large | full.

(** [children]: a markup string, one element, or an array of elements. *)
Inductive Content :=
  | CString (markup : string)
  | CElement (el : nat)
  | CElements (els : list nat).

(** [ModalProps]. An optional field that is absent or [undefined] is [None];
    [onClose] is the identity of the caller's callback. *)
Record ModalProps := {
  isOpen : bool;
  onClose : nat;
  title : option string;
  children : option Content;
  size : option ModalSize;
  closeOnBackdropClick : option bool;
  closeOnEscape : option bool;
  className : option string;
  showCloseButton : option bool
}.

(** [Partial<ModalProps>]: [None] is a key that is not there. A key
    [isOpen] holding [undefined] acts as [false] in every test the class
    makes and is written [Some false]. *)
Record PartialProps := {
  new_isOpen : option bool;
  new_onClose : option nat;
  new_title : option (option string);
  new_children : option (option Content);
  new_size : option (option ModalSize);
  new_closeOnBackdropClick : option (option bool);
  new_closeOnEscape : option (option bool);
  new_className : option (option string);
  new_showCloseButton : option (option bool)
}.

(** [{ ...old, ...upd }] *)
Definition spread (old : ModalProps) (upd : PartialProps) : ModalProps :=
  {| isOpen := default (isOpen old) (new_isOpen upd);
     onClose := default (onClose old) (new_onClose upd);
     title := default (title old) (new_title upd);
     children := default (children old) (new_children upd);
     size := default (size old) (new_size upd);
     closeOnBackdropClick := default (closeOnBackdropClick old) (new_closeOnBackdropClick upd);
     closeOnEscape := default (closeOnEscape old) (new_closeOnEscape upd);
     className := default (className old) (new_className upd);
     showCloseButton := default (showCloseButton old) (new_showCloseButton upd) |}.

(** [flag !== false] for an optional boolean. *)
Definition notFalse (flag : option bool) : bool :=
  match flag with
  | Some false => false
  | _ => true
  end.

(** Truthiness of an optional string and of [children]. *)
Definition truthyString (o : option string) : option string :=
  match o with
  | Some s => if String.eqb s "" then None else Some s
  | None => None
  end.

Definition truthyContent (o : option Content) : option Content :=
  match o with
  | Some (CString s) => if String.eqb s "" then None else o
  | _ => o
  end.

Definition sizeName (z : ModalSize) : string :=
  match z with
  | small => "small"
  | medium => "medium"
  | large => "large"
  | full => "full"
  end.

(** ** The controller object and the world around it *)

Record Modal := {
  portal : option nat;
  backdrop : option nat;
  modal : option nat;
  header : option nat;
  body : option nat;
  closeButton : option nat;
  props : ModalProps;
  previousFocusedElement : option nat;
  focusableElements : list nat
}.

(** Callbacks handed to [setTimeout] and to [requestAnimationFrame]. *)
Inductive TimerTask := HideCleanup | ShowAgain.
Inductive FrameTask := AddOpenClass.

Record World := {
  dom : list Element;
  bodyOverflow : string;
  keydownListeners : list KeyHandler;
  activeElement : option nat;
  now : Z;
  timers : list (Z * TimerTask);
  frames : list FrameTask;
  closeLog : list nat
}.

Record State := { this : Modal; world : World }.

Definition set_portal (v : option nat) (m : Modal) : Modal :=
  {| portal := v; backdrop := backdrop m; modal := modal m; header := header m;
     body := body m; closeButton := closeButton m; props := props m;
     previousFocusedElement := previousFocusedElement m;
     focusableElements := focusableElements m |}.

Definition set_backdrop (v : option nat) (m : Modal) : Modal :=
  {| portal := portal m; backdrop := v; modal := modal m; header := header m;
     body := body m; closeButton := closeButton m; props := props m;
     previousFocusedElement := previousFocusedElement m;
     focusableElements := focusableElements m |}.

Definition set_modal (v : option nat) (m : Modal) : Modal :=
  {| portal := portal m; backdrop := backdrop m; modal := v; header := header m;
     body := body m; closeButton := closeButton m; props := props m;
     previousFocusedElement := previousFocusedElement m;
     focusableElements := focusableElements m |}.

Definition set_header (v : option nat) (m : Modal) : Modal :=
  {| portal := portal m; backdrop := backdrop m; modal := modal m; header := v;
     body := body m; closeButton := closeButton m; props := props m;
     previousFocusedElement := previousFocusedElement m;
     focusableElements := focusableElements m |}.

Definition set_body (v : option nat) (m : Modal) : Modal :=
  {| portal := portal m; backdrop := backdrop m; modal := modal m; header := header m;
     body := v; closeButton := closeButton m; props := props m;
     previousFocusedElement := previousFocusedElement m;
     focusableElements := focusableElements m |}.

Definition set_closeButton (v : option nat) (m : Modal) : Modal :=
  {| portal := portal m; backdrop := backdrop m; modal := modal m; header := header m;
     body := body m; closeButton := v; props := props m;
     previousFocusedElement := previousFocusedElement m;
     focusableElements := focusableElements m |}.

Definition set_props (v : ModalProps) (m : Modal) : Modal :=
  {| portal := portal m; backdrop := backdrop m; modal := modal m; header := header m;
     body := body m; closeButton := closeButton m; props := v;
     previousFocusedElement := previousFocusedElement m;
     focusableElements := focusableElements m |}.

Definition set_previousFocusedElement (v : option nat) (m : Modal) : Modal :=
  {| portal := portal m; backdrop := backdrop m; modal := modal m; header := header m;
     body := body m; closeButton := closeButton m; props := props m;
     previousFocusedElement := v;
     focusableElements := focusableElements m |}.

Definition set_focusableElements (v : list nat) (m : Modal) : Modal :=
  {| portal := portal m; backdrop := backdrop m; modal := modal m; header := header m;
     body := body m; closeButton := closeButton m; props := props m;
     previousFocusedElement := previousFocusedElement m;
     focusableElements := v |}.

Definition set_dom (v : list Element) (w : World) : World :=
  {| dom := v; bodyOverflow := bodyOverflow w; keydownListeners := keydownListeners w;
     activeElement := activeElement w; now := now w; timers := timers w;
     frames := frames w; closeLog := closeLog w |}.

Definition set_bodyOverflow (v : string) (w : World) : World :=
  {| dom := dom w; bodyOverflow := v; keydownListeners := keydownListeners w;
     activeElement := activeElement w; now := now w; timers := timers w;
     frames := frames w; closeLog := closeLog w |}.

Definition set_keydownListeners (v : list KeyHandler) (w : World) : World :=
  {| dom := dom w; bodyOverflow := bodyOverflow w; keydownListeners := v;
     activeElement := activeElement w; now := now w; timers := timers w;
     frames := frames w; closeLog := closeLog w |}.

Definition set_activeElement (v : option nat) (w : World) : World :=
  {| dom := dom w; bodyOverflow := bodyOverflow w; keydownListeners := keydownListeners w;
     activeElement := v; now := now w; timers := timers w;
     frames := frames w; closeLog := closeLog w |}.

Definition set_now (v : Z) (w : World) : World :=
  {| dom := dom w; bodyOverflow := bodyOverflow w; keydownListeners := keydownListeners w;
     activeElement := activeElement w; now := v; timers := timers w;
     frames := frames w; closeLog := closeLog w |}.

Definition set_timers (v : list (Z * TimerTask)) (w : World) : World :=
  {| dom := dom w; bodyOverflow := bodyOverflow w; keydownListeners := keydownListeners w;
     activeElement := activeElement w; now := now w; timers := v;
     frames := frames w; closeLog := closeLog w |}.

Definition set_frames (v : list FrameTask) (w : World) : World :=
  {| dom := dom w; bodyOverflow := bodyOverflow w; keydownListeners := keydownListeners w;
     activeElement := activeElement w; now := now w; timers := timers w;
     frames := v; closeLog := closeLog w |}.

Definition set_closeLog (v : list nat) (w : World) : World :=
  {| dom := dom w; bodyOverflow := bodyOverflow w; keydownListeners := keydownListeners w;
     activeElement := activeElement w; now := now w; timers := timers w;
     frames := frames w; closeLog := v |}.

(** A step on the controller's fields, and a step on the world. *)
Definition onThis (f : Modal -> Modal) (s : State) : State :=
  {| this := f (this s); world := world s |}.

Definition onWorld (f : World -> World) (s : State) : State :=
  {| this := this s; world := f (world s) |}.

Definition onDom (f : list Element -> list Element) (s : State) : State :=
  onWorld (fun w => set_dom (f (dom w)) w) s.

(** ** Host services on the world *)

Definition keyHandler_eqb (a b : KeyHandler) : bool :=
  match a, b with
  | HandleEscapeKey, HandleEscapeKey => true
  | TrapFocus, TrapFocus => true
  | _, _ => false
  end.

(** [document.addEventListener('keydown', h)]: the same listener is kept
    once. *)
Definition addKeydownListener (h : KeyHandler) (s : State) : State :=
  onWorld (fun w =>
    if existsb (keyHandler_eqb h) (keydownListeners w) then w
    else set_keydownListeners (keydownListeners w ++ [h]) w) s.

(** [document.removeEventListener('keydown', h)] *)
Definition removeKeydownListener (h : KeyHandler) (s : State) : State :=
  onWorld (fun w =>
    set_keydownListeners
      (List.filter (fun x => negb (keyHandler_eqb x h)) (keydownListeners w)) w) s.

(** [el.focus()] makes [el] the active element. *)
Definition focus (el : nat) (s : State) : State :=
  onWorld (set_activeElement (Some el)) s.

(** The timer queue is kept in firing order: by due time, and by the order
    of the [setTimeout] calls among equal due times. *)
Fixpoint insertTimer (t : Z * TimerTask) (q : list (Z * TimerTask)) : list (Z * TimerTask) :=
  match q with
  | [] => [t]
  | x :: r => if (fst x <=? fst t)%Z then x :: insertTimer t r else t :: q
  end.

(** [setTimeout(task, delay)] *)
Definition setTimeout (task : TimerTask) (delay : Z) (s : State) : State :=
  onWorld (fun w => set_timers (insertTimer ((now w + delay)%Z, task) (timers w)) w) s.

(** [requestAnimationFrame(task)] *)
Definition requestAnimationFrame (task : FrameTask) (s : State) : State :=
  onWorld (fun w => set_frames (frames w ++ [task]) w) s.

(** [document.createElement(tag)] on the state. *)
Definition newElement (tag : string) (s : State) : nat * State :=
  (fst (Dom.createElement tag (dom (world s))),
   onDom (fun d => snd (Dom.createElement tag d)) s).

(** The close-animation time of the style sheet, in milliseconds. *)
Definition ANIMATION_MS : Z := 200.

(** ** The class *)

Section Controller.

(** The HTML parser of the host, used by every [innerHTML] assignment. *)
Variable parseHTML : string -> list Markup.

Definition getModalClassName (s : State) : list string :=
  let baseClass := "modal" in
  let size := String.append "modal--" (sizeName (default medium (size (props (this s))))) in
  let custom := default "" (className (props (this s))) in
  List.filter (fun c => negb (String.eqb c "")) [baseClass; size; custom].

Definition createHeader (s : State) : nat * State :=
  let '(header, s) := newElement "div" s in
  let s := onDom (Dom.setClassName header ["modal__header"]) s in
  let s :=
    match truthyString (title (props (this s))) with
    | Some text =>
        let '(title, s) := newElement "h2" s in
        let s := onDom (Dom.setAttribute title "id" "modal-title") s in
        let s := onDom (Dom.setClassName title ["modal__title"]) s in
        let s := onDom (Dom.setTextContent title text) s in
        onDom (Dom.appendChild header title) s
    | None => s
    end in
  let s :=
    if notFalse (showCloseButton (props (this s))) then
      let '(button, s) := newElement "button" s in
      let s := onThis (set_closeButton (Some button)) s in
      let s := onDom (Dom.setClassName button ["modal__close"]) s in
      let s := onDom (Dom.setAttribute button "aria-label" "Close modal") s in
      let s := onDom (Dom.setInnerHTML parseHTML button "âœ•") s in
      let s := onDom (Dom.addClickListener button CloseButtonClick) s in
      onDom (Dom.appendChild header button) s
    else s in
  (header, s).

(** [content.forEach(child => parent.appendChild(child))] *)
Definition appendAll (parent : nat) (els : list nat) (d : list Element) : list Element :=
  fold_left (fun d child => Dom.appendChild parent child d) els d.

Definition createBody (s : State) : nat * State :=
  let '(body, s) := newElement "div" s in
  let s := onDom (Dom.setClassName body ["modal__body"]) s in
  let s :=
    match truthyContent (children (props (this s))) with
    | Some (CString markup) => onDom (Dom.setInnerHTML parseHTML body markup) s
    | Some (CElements els) => onDom (appendAll body els) s
    | Some (CElement el) => onDom (Dom.appendChild body el) s
    | None => s
    end in
  (body, s).

Definition createElement (s : State) : State :=
  (* Create portal *)
  let '(portal, s) := newElement "div" s in
  let s := onThis (set_portal (Some portal)) s in
  let s := onDom (Dom.setClassName portal ["modal-portal"]) s in
  (* Create backdrop *)
  let '(backdrop, s) := newElement "div" s in
  let s := onThis (set_backdrop (Some backdrop)) s in
  let s := onDom (Dom.setClassName backdrop ["modal-backdrop"]) s in
  let s :=
    if notFalse (closeOnBackdropClick (props (this s)))
    then onDom (Dom.addClickListener backdrop HandleBackdropClick) s
    else s in
  (* Create modal *)
  let '(modal, s) := newElement "div" s in
  let s := onThis (set_modal (Some modal)) s in
  let s := onDom (Dom.setClassName modal (getModalClassName s)) s in
  let s := onDom (Dom.setAttribute modal "role" "dialog") s in
  let s := onDom (Dom.setAttribute modal "aria-modal" "true") s in
  let s :=
    match truthyString (title (props (this s))) with
    | Some _ => onDom (Dom.setAttribute modal "aria-labelledby" "modal-title") s
    | None => s
    end in
  (* Create header if title or close button needed *)
  let s :=
    match truthyString (title (props (this s))), notFalse (showCloseButton (props (this s))) with
    | None, false => s
    | _, _ =>
        let '(header, s) := createHeader s in
        let s := onThis (set_header (Some header)) s in
        onDom (Dom.appendChild modal header) s
    end in
  (* Create body *)
  let '(body, s) := createBody s in
  let s := onThis (set_body (Some body)) s in
  let s := onDom (Dom.appendChild modal body) s in
  (* Assemble structure *)
  let s := onDom (Dom.appendChild backdrop modal) s in
  onDom (Dom.appendChild portal backdrop) s.

(** [this.props.onClose()]: the call is recorded; what the caller does in
    answer is a later operation of its own. *)
Definition callOnClose (s : State) : State :=
  onWorld (fun w => set_closeLog (closeLog w ++ [onClose (props (this s))]) w) s.

Record KeyboardEvent := { key : string; shiftKey : bool }.

(** The handlers return the state and whether [event.preventDefault()] was
    called. *)
Definition handleEscapeKey (event : KeyboardEvent) (s : State) : State * bool :=
  if String.eqb (key event) "Escape" && notFalse (closeOnEscape (props (this s)))
  then (callOnClose s, false)
  else (s, false).

(** [event.target === this.backdrop] *)
Definition isBackdrop (target : nat) (s : State) : bool :=
  match backdrop (this s) with
  | Some b => Nat.eqb target b
  | None => false
  end.

Definition handleBackdropClick (target : nat) (s : State) : State :=
  if isBackdrop target s then callOnClose s else s.

(** [document.activeElement === el] *)
Definition isActive (el : nat) (s : State) : bool :=
  match activeElement (world s) with
  | Some a => Nat.eqb a el
  | None => false
  end.

Definition trapFocus (event : KeyboardEvent) (s : State) : State * bool :=
  if negb (String.eqb (key event) "Tab") then (s, false)
  else
    match focusableElements (this s) with
    | [] => (s, false)
    | firstElement :: _ =>
        let lastElement := List.last (focusableElements (this s)) firstElement in
        if shiftKey event then
          if isActive firstElement s then (focus lastElement s, true) else (s, false)
        else
          if isActive lastElement s then (focus firstElement s, true) else (s, false)
    end.

Definition focusableSelector (e : Element) : bool :=
  String.eqb (tagName e) "button"
  || Dom.hasAttribute "href" e
  || String.eqb (tagName e) "input"
  || String.eqb (tagName e) "select"
  || String.eqb (tagName e) "textarea"
  || (Dom.hasAttribute "tabindex" e
      && negb (match Dom.getAttribute "tabindex" e with
               | Some v => String.eqb v "-1"
               | None => false
               end)).

Definition enabled (d : list Element) (i : nat) : bool :=
  match d !! i with
  | Some e => negb (Dom.hasAttribute "disabled" e)
  | None => false
  end.

Definition getFocusableElements (s : State) : list nat :=
  match modal (this s) with
  | None => []
  | Some m =>
      List.filter (enabled (dom (world s)))
        (Dom.querySelectorAll focusableSelector m (dom (world s)))
  end.

Definition show (s : State) : State :=
  let s := match portal (this s) with
           | None => createElement s
           | Some _ => s
           end in
  (* Store previously focused element *)
  let s := onThis (set_previousFocusedElement (activeElement (world s))) s in
  (* Add to DOM; [createElement] has set the portal *)
  let s := match portal (this s) with
           | Some p => onDom (Dom.appendChild Dom.BODY p) s
           | None => s
           end in
  let s := onWorld (set_bodyOverflow "hidden") s in
  (* Set up event listeners *)
  let s := if notFalse (closeOnEscape (props (this s)))
           then addKeydownListener HandleEscapeKey s
           else s in
  let s := addKeydownListener TrapFocus s in
  (* Focus management *)
  let s := onThis (set_focusableElements (getFocusableElements s)) s in
  let s := match focusableElements (this s) with
           | el :: _ => focus el s
           | [] => match modal (this s) with
                   | Some m => focus m s
                   | None => s
                   end
           end in
  (* Add animation class *)
  requestAnimationFrame AddOpenClass s.

(** The callback that [hide] hands to [setTimeout]. *)
Definition hideCleanup (s : State) : State :=
  (* Remove event listeners *)
  let s := removeKeydownListener HandleEscapeKey s in
  let s := removeKeydownListener TrapFocus s in
  (* Remove from DOM *)
  let s := match portal (this s) with
           | Some p =>
               match Dom.parentNode (dom (world s)) p with
               | Some _ => onDom (Dom.removeChild Dom.BODY p) s
               | None => s
               end
           | None => s
           end in
  (* Restore document scroll *)
  let s := onWorld (set_bodyOverflow "") s in
  (* Restore focus *)
  match previousFocusedElement (this s) with
  | Some el => focus el s
  | None => s
  end.

Definition hide (s : State) : State :=
  match portal (this s) with
  | None => s
  | Some p =>
      (* Remove animation class *)
      let s := onDom (Dom.classListRemove p "modal-portal--open") s in
      (* Wait for animation to complete *)
      setTimeout HideCleanup ANIMATION_MS s
  end.

Definition updateProps (newProps : PartialProps) (s : State) : State :=
  let wasOpen := isOpen (props (this s)) in
  let s := onThis (set_props (spread (props (this s)) newProps)) s in
  if wasOpen && negb (isOpen (props (this s))) then hide s
  else if negb wasOpen && isOpen (props (this s)) then show s
  else if isOpen (props (this s)) then
    (* Re-render if modal is open *)
    let s := hide s in
    setTimeout ShowAgain ANIMATION_MS s
  else s.

Definition updateContent (children : Content) (s : State) : State :=
  match body (this s) with
  | None => s
  | Some b =>
      let s := onDom (Dom.setInnerHTML parseHTML b "") s in
      let s :=
        match children with
        | CString markup => onDom (Dom.setInnerHTML parseHTML b markup) s
        | CElements els => onDom (appendAll b els) s
        | CElement el => onDom (Dom.appendChild b el) s
        end in
      (* Update focusable elements *)
      onThis (set_focusableElements (getFocusableElements s)) s
  end.

Definition destroy (s : State) : State :=
  let s := hide s in
  let s := onThis (set_portal None) s in
  let s := onThis (set_backdrop None) s in
  let s := onThis (set_modal None) s in
  let s := onThis (set_header None) s in
  let s := onThis (set_body None) s in
  onThis (set_closeButton None) s.

(** [new Modal(props)] in the world [w]. *)
Definition newModal (p : ModalProps) : Modal :=
  {| portal := None; backdrop := None; modal := None; header := None;
     body := None; closeButton := None; props := p;
     previousFocusedElement := None; focusableElements := [] |}.

Definition constructor (p : ModalProps) (w : World) : State :=
  let s := {| this := newModal p; world := w |} in
  if isOpen p then show s else s.

(** ** The event loop: frames, timers and user input *)

(** The arrow function handed to [requestAnimationFrame] by [show]:
    [this.portal?.classList.add('modal-portal--open')]. *)
Definition addOpenClass (s : State) : State :=
  match portal (this s) with
  | Some p => onDom (Dom.classListAdd p "modal-portal--open") s
  | None => s
  end.

Definition runFrame (task : FrameTask) (s : State) : State :=
  match task with
  | AddOpenClass => addOpenClass s
  end.

Definition runTimer (task : TimerTask) (s : State) : State :=
  match task with
  | HideCleanup => hideCleanup s
  | ShowAgain => show s
  end.

(** One animation frame: the callbacks requested so far run in order. *)
Definition animationFrame (s : State) : State :=
  let queue := frames (world s) in
  let s := onWorld (set_frames []) s in
  fold_left (fun s task => runFrame task s) queue s.

(** [ms] milliseconds pass (0 <= ms): the timers due by then fire in queue
    order, each at its due time. No timer callback of the class sets a
    timer. *)
Definition advance (ms : Z) (s : State) : State :=
  let deadline := (now (world s) + ms)%Z in
  let due := List.filter (fun x => (fst x <=? deadline)%Z) (timers (world s)) in
  let later := List.filter (fun x => negb (fst x <=? deadline)%Z) (timers (world s)) in
  let s := onWorld (set_timers later) s in
  let s := fold_left
             (fun s x => runTimer (snd x)
                           (onWorld (fun w => set_now (Z.max (now w) (fst x)) w) s))
             due s in
  onWorld (set_now deadline) s.

Definition runKeyHandler (h : KeyHandler) (event : KeyboardEvent) (s : State) : State * bool :=
  match h with
  | HandleEscapeKey => handleEscapeKey event s
  | TrapFocus => trapFocus event s
  end.

(** A keydown event reaches the document: its listeners run in the order
    they were added. The result tells whether the default action (moving
    focus, for Tab) was prevented. *)
Definition keydown (event : KeyboardEvent) (s : State) : State * bool :=
  fold_left
    (fun acc h => let '(s', p) := runKeyHandler h event (fst acc) in (s', snd acc || p))
    (keydownListeners (world s)) (s, false).

Definition runClickHandler (h : ClickHandler) (target : nat) (s : State) : State :=
  match h with
  | HandleBackdropClick => handleBackdropClick target s
  | CloseButtonClick => callOnClose s
  end.

Definition listenersAt (node : nat) (s : State) : list ClickHandler :=
  match dom (world s) !! node with
  | Some e => clickListeners e
  | None => []
  end.

(** A click on [target] bubbles from the target through its ancestors. *)
Definition click (target : nat) (s : State) : State :=
  fold_left
    (fun s node => fold_left (fun s h => runClickHandler h target s) (listenersAt node s) s)
    (target :: Dom.ancestors (length (dom (world s))) (dom (world s)) target) s.

End Controller.

(** A page: [document.body] with [n] buttons as its children, nothing
    focused, no listener, no timer. *)
Definition page (n : nat) : World :=
  {| dom := Dom.with_childNodes (seq 1 n) (Dom.blank "body") :: repeat (Dom.blank "button") n;
     bodyOverflow := ""; keydownListeners := []; activeElement := Some Dom.BODY;
     now := 0%Z; timers := []; frames := []; closeLog := [] |}.

(** A parser for markup that holds text only. *)
Definition textOnly (markup : string) : list Markup := [].

Definition defaults (open : bool) : ModalProps :=
  {| isOpen := open; onClose := 0; title := None; children := None; size := None;
     closeOnBackdropClick := None; closeOnEscape := None; className := None;
     showCloseButton := None |}.

Definition noChange : PartialProps :=
  {| new_isOpen := None; new_onClose := None; new_title := None; new_children := None;
     new_size := None; new_closeOnBackdropClick := None; new_closeOnEscape := None;
     new_className := None; new_showCloseButton := None |}.

(** * Notions used by the statements and their proofs *)

(** [d'] holds every element of [d] unchanged, and maybe more. *)
Definition extends (d d' : list Element) : Prop :=
  length d <= length d' /\ forall i, i < length d -> d' !! i = d !! i.

(** ** Building elements *)

(** Two worlds that differ in the heap only. *)
Definition sameHost (w w' : World) : Prop :=
  bodyOverflow w' = bodyOverflow w /\ keydownListeners w' = keydownListeners w /\
  activeElement w' = activeElement w /\ now w' = now w /\ timers w' = timers w /\
  frames w' = frames w /\ closeLog w' = closeLog w.

(** The heap did not shrink, and its first [k] elements kept their class
    list and their click listeners. *)
Definition frozen (k : nat) (d d' : list Element) : Prop :=
  length d <= length d' /\
  forall i, i < k ->
    classList <$> d' !! i = classList <$> d !! i /\
    clickListeners <$> d' !! i = clickListeners <$> d !! i.

(** The fields that building elements does not assign. *)
Definition sameFields (m m' : Modal) : Prop :=
  portal m' = portal m /\ props m' = props m /\
  previousFocusedElement m' = previousFocusedElement m /\
  focusableElements m' = focusableElements m.

(** [x] comes from [b] by steps that build elements beyond the first [k]
    of the heap. *)
Definition grows (k : nat) (b x : State) : Prop :=
  k <= length (dom (world b)) /\
  sameFields (this b) (this x) /\
  sameHost (world b) (world x) /\
  frozen k (dom (world b)) (dom (world x)).

(** A heap step that keeps the frozen part of a heap of [k] elements or
    more. *)
Definition keeps (k : nat) (f : list Element -> list Element) : Prop :=
  forall d, k <= length d ->
    length d <= length (f d) /\
    forall i, i < k ->
      classList <$> f d !! i = classList <$> d !! i /\
      clickListeners <$> f d !! i = clickListeners <$> d !! i.

(** A build step that also returns the identity of a new element. *)
Definition growsWith (k : nat) (b : State) (r : nat * State) : Prop :=
  grows k b (snd r) /\ k <= fst r.

(** The state of [createElement] once the portal element exists and has
    its class. *)
Definition portalCreated (s : State) : State :=
  let n := length (dom (world s)) in
  onDom (Dom.setClassName n ["modal-portal"])
    (onThis (set_portal (Some n)) (snd (newElement "div" s))).

(** The state of [createElement] once the backdrop exists, with its class
    and, if configured so, its click listener. *)
Definition backdropCreated (s : State) : State :=
  let p := portalCreated s in
  let b := fst (newElement "div" p) in
  let s3 := onDom (Dom.setClassName b ["modal-backdrop"])
              (onThis (set_backdrop (Some b)) (snd (newElement "div" p))) in
  if notFalse (closeOnBackdropClick (props (this s3)))
  then onDom (Dom.addClickListener b HandleBackdropClick) s3
  else s3.

(** The children of [document.body] in [d'] are among those in [d], each
    at most as often. *)
Definition shrinks (d d' : list Element) : Prop :=
  forall i,
    count_occ Nat.eq_dec (Dom.childrenOf d' Dom.BODY) i
    <= count_occ Nat.eq_dec (Dom.childrenOf d Dom.BODY) i.

(** A heap step that adds no child to [document.body]. *)
Definition gentle (k : nat) (f : list Element -> list Element) : Prop :=
  forall d, 0 < k -> k <= length d -> length d <= length (f d) /\ shrinks d (f d).

(** [x] comes from [b] by steps that add no child to [document.body] and
    take a body element from beyond the first [k] elements of the heap. *)
Definition builds (k : nat) (b x : State) : Prop :=
  0 < k /\ k <= length (dom (world x)) /\
  shrinks (dom (world b)) (dom (world x)) /\
  (forall y, body (this x) = Some y -> body (this b) = Some y \/ k <= y).

Definition buildsWith (k : nat) (b : State) (r : nat * State) : Prop :=
  builds k b (snd r) /\ k <= fst r.

(** ** Observations *)

(** The state after the first statement of [show]: the subtree exists. *)
Definition mount (parse : string -> list Markup) (s : State) : State :=
  match portal (this s) with
  | Some _ => s
  | None => createElement parse s
  end.

(** The listener list after [addEventListener]. *)
Definition withListener (h : KeyHandler) (l : list KeyHandler) : list KeyHandler :=
  if existsb (keyHandler_eqb h) l then l else l ++ [h].

(** [document.body.children] *)
Definition bodyChildren (s : State) : list nat :=
  Dom.childrenOf (dom (world s)) Dom.BODY.

(** [h] is a keydown listener of the document. *)
Definition registered (h : KeyHandler) (s : State) : Prop :=
  In h (keydownListeners (world s)).

(** The element carries the class that makes the dialog visible. *)
Definition hasOpenClass (p : nat) (s : State) : bool :=
  Dom.hasClass p "modal-portal--open" (dom (world s)).

(** Firing one timer at its due time. *)
Definition fire (parse : string -> list Markup) (s : State) (x : Z * TimerTask) : State :=
  runTimer parse (snd x) (onWorld (fun w => set_now (Z.max (now w) (fst x)) w) s).

(** Every pending timer was set with the animation delay. *)
Definition timersWithinDelay (s : State) : Prop :=
  Forall (fun t => (fst t <= now (world s) + ANIMATION_MS)%Z) (timers (world s)).

(** The controller with its configuration replaced by the merged one. *)
Definition withNewProps (newProps : PartialProps) (s : State) : State :=
  onThis (set_props (spread (props (this s)) newProps)) s.

(** One listener of a keydown dispatch. *)
Definition keydownStep (event : KeyboardEvent) (acc : State * bool) (h : KeyHandler)
    : State * bool :=
  let '(s', p) := runKeyHandler h event (fst acc) in (s', snd acc || p).

(** The six assignments of [destroy]. *)
Definition released (m : Modal) : Modal :=
  set_closeButton None (set_body None (set_header None
    (set_modal None (set_backdrop None (set_portal None m))))).

(** No field of the controller refers to an element. *)
Definition holdsNoElement (m : Modal) : Prop :=
  portal m = None /\ backdrop m = None /\ modal m = None /\ header m = None /\
  body m = None /\ closeButton m = None /\
  previousFocusedElement m = None /\ focusableElements m = [].

(** A state a controller can be in before [destroy]: without a portal it
    has registered no listener and has no deferred [show] pending. *)
Definition idleWithoutPortal (s : State) : Prop :=
  portal (this s) = None ->
  keydownListeners (world s) = [] /\
  Forall (fun t => snd t = HideCleanup) (timers (world s)).

(** [appendChild] on a child list. *)
Definition moveLast (kids : list nat) (c : nat) : list nat := Dom.without c kids ++ [c].

(** The state of [updateContent] after the body got its new children. *)
Definition contentReplaced (parse : string -> list Markup) (b : nat) (c : Content)
    (s : State) : State :=
  match c with
  | CString markup =>
      onDom (Dom.setInnerHTML parse b markup) (onDom (Dom.setInnerHTML parse b "") s)
  | CElements els => onDom (appendAll b els) (onDom (Dom.setInnerHTML parse b "") s)
  | CElement el => onDom (Dom.appendChild b el) (onDom (Dom.setInnerHTML parse b "") s)
  end.

(** ** Scenarios *)

(** An open modal with defaults on a page with two buttons: the portal is
    element 3, the backdrop 4, the close button 7 and the body 8. *)
Definition openModal : State := constructor textOnly (defaults true) (page 2).

(** An open modal without header whose content is the three buttons of the
    page: the focusable elements are [1; 2; 3]. *)
Definition threeButtons : State :=
  constructor textOnly
    {| isOpen := true; onClose := 0; title := None;
       children := Some (CElements [1; 2; 3]); size := None;
       closeOnBackdropClick := None; closeOnEscape := None; className := None;
       showCloseButton := Some false |}
    (page 3).

(** A closed modal with defaults on the same page. *)
Definition closedModal : State := constructor textOnly (defaults false) (page 2).

(** A closed modal that does not react to Escape. *)
Definition noEscape : State :=
  {| this := newModal
       {| isOpen := false; onClose := 0; title := None; children := None; size := None;
          closeOnBackdropClick := None; closeOnEscape := Some false; className := None;
          showCloseButton := None |};
     world := page 2 |}.

(** A Tab keydown, with or without Shift. *)
Definition tab (shift : bool) : KeyboardEvent := {| key := "Tab"; shiftKey := shift |}.

Definition setBackdropClick (flag : bool) : PartialProps :=
  {| new_isOpen := None; new_onClose := None; new_title := None; new_children := None;
     new_size := None; new_closeOnBackdropClick := Some (Some flag);
     new_closeOnEscape := None; new_className := None; new_showCloseButton := None |}.

Definition setOpen (flag : bool) : PartialProps :=
  {| new_isOpen := Some flag; new_onClose := None; new_title := None; new_children := None;
     new_size := None; new_closeOnBackdropClick := None;
     new_closeOnEscape := None; new_className := None; new_showCloseButton := None |}.

(** The children of [document.body] that are portals. *)
Definition portalsInBody (s : State) : list nat :=
  List.filter (fun i => Dom.hasClass i "modal-portal" (dom (world s))) (bodyChildren s).

(** [new Modal({isOpen: true})], a frame,
    [updateProps({closeOnBackdropClick: false})], 200 ms, a frame: the
    modal is open again, now configured not to close on a backdrop click. *)
Definition backdropDisabled : State :=
  animationFrame
    (advance textOnly 200
       (updateProps textOnly (setBackdropClick false) (animationFrame openModal))).

(** [new Modal({isOpen: true})], [updateProps({})], 100 ms, [destroy()],
    100 ms. *)
Definition destroyedWhileRerendering : State :=
  advance textOnly 100
    (destroy (advance textOnly 100 (updateProps textOnly noChange openModal))).

(** ** Runs *)

(** What a caller, the user and the event loop do to a controller that is
    not destroyed. *)
Inductive Action :=
  | CallShow
  | CallHide
  | CallUpdateProps (newProps : PartialProps)
  | CallUpdateContent (content : Content)
  | Wait (ms : nat)
  | Frame
  | Keydown (event : KeyboardEvent)
  | Click (target : nat)
  | Focus (el : nat).

Definition perform (parse : string -> list Markup) (s : State) (a : Action) : State :=
  match a with
  | CallShow => show parse s
  | CallHide => hide s
  | CallUpdateProps newProps => updateProps parse newProps s
  | CallUpdateContent content => updateContent parse content s
  | Wait ms => advance parse (Z.of_nat ms) s
  | Frame => animationFrame s
  | Keydown event => fst (keydown event s)
  | Click target => click target s
  | Focus el => focus el s
  end.

Definition run (parse : string -> list Markup) (actions : list Action) (s : State) : State :=
  fold_left (perform parse) actions s.

(** A document with a body, on which nothing of the controller is
    registered or pending. *)
Definition freshPage (w : World) : Prop :=
  dom w <> [] /\ keydownListeners w = [] /\ timers w = [].

(** The children of [document.body] are elements of the document. *)
Definition childrenInHeap (w : World) : Prop :=
  forall i, In i (Dom.childrenOf (dom w) Dom.BODY) -> i < length (dom w).

(** The part of [consistent] that does not look at [isOpen]. *)
Definition settled (s : State) : Prop :=
  List.NoDup (keydownListeners (world s)) /\
  timersWithinDelay s /\
  dom (world s) <> [] /\
  (forall p, portal (this s) = Some p -> p < length (dom (world s))) /\
  idleWithoutPortal s.

Definition consistent (s : State) : Prop :=
  settled s /\ (isOpen (props (this s)) = true -> portal (this s) <> None).

(** Two states that differ at most in the log of [onClose] calls, the
    focus, the frame queue, the scroll lock and the classes of elements. *)
Definition sameSkeleton (s s' : State) : Prop :=
  this s' = this s /\
  keydownListeners (world s') = keydownListeners (world s) /\
  timers (world s') = timers (world s) /\
  now (world s') = now (world s) /\
  length (dom (world s')) = length (dom (world s)) /\
  bodyChildren s' = bodyChildren s.

(** The children of [document.body] that were created after the first
    [n0] elements of the heap are the portal of the controller, once; the
    body element of the modal is not [document.body]. *)
Definition onePortal (n0 : nat) (s : State) : Prop :=
  (forall i, In i (bodyChildren s) -> n0 <= i -> portal (this s) = Some i) /\
  (forall p, portal (this s) = Some p ->
     count_occ Nat.eq_dec (bodyChildren s) p <= 1) /\
  (forall b, body (this s) = Some b -> b <> Dom.BODY) /\
  dom (world s) <> [] /\
  n0 <= length (dom (world s)).

(** ** Elements that stay what they are *)

(** [e'] is [e] up to its children and, if [cls] is false, its classes. *)
Definition sameElement (cls : bool) (e e' : Element) : Prop :=
  tagName e' = tagName e /\ attributes e' = attributes e /\
  textContent e' = textContent e /\ clickListeners e' = clickListeners e /\
  (cls = true -> classList e' = classList e).

(** Every element of [d] is in [d'] what it was in [d], up to its children
    and, for the element [p], its classes. *)
Definition retained (p : nat) (d d' : list Element) : Prop :=
  length d <= length d' /\
  forall j e, d !! j = Some e ->
    exists e', d' !! j = Some e' /\ sameElement (negb (Nat.eqb j p)) e e'.

(** A state that has the portal [p] and retains the elements of [s]. *)
Definition keepsElements (p : nat) (s s' : State) : Prop :=
  portal (this s') = Some p /\ retained p (dom (world s)) (dom (world s')).

(** Two states with the same controller fields and the same elements. *)
Definition sameDocument (s s' : State) : Prop :=
  this s' = this s /\ dom (world s') = dom (world s).

(** * Facts about the heap *)

Module DomFacts.
Import Dom.

Lemma mem_true (x : nat) (l : list nat) : mem x l = true <-> In x l.
Proof.
  unfold mem. rewrite existsb_exists. split.
  - intros (y & Hy & Heq). apply Nat.eqb_eq in Heq. now subst.
  - intros H. exists x. split; [assumption | apply Nat.eqb_refl].
Qed.

Lemma mem_false (x : nat) (l : list nat) : mem x l = false <-> ~ In x l.
Proof.
  rewrite <- mem_true. destruct (mem x l); split; intros; congruence.
Qed.

Lemma in_without (x y : nat) (l : list nat) : In y (without x l) <-> In y l /\ y <> x.
Proof.
  unfold without. rewrite filter_In, negb_true_iff, Nat.eqb_neq. tauto.
Qed.

Lemma not_in_without (x : nat) (l : list nat) : ~ In x (without x l).
Proof. rewrite in_without. tauto. Qed.

Lemma without_notin (x : nat) (l : list nat) : ~ In x l -> without x l = l.
Proof.
  induction l as [|y l IH]; intros H; [reflexivity|]. simpl.
  destruct (Nat.eqb_spec y x) as [->|Hne]; simpl.
  - exfalso. apply H. now left.
  - f_equal. apply IH. intros Hin. apply H. now right.
Qed.

(** Lengths: no operation shortens the heap. *)
Lemma length_detach c d : length (detach c d) = length d.
Proof. unfold detach. apply length_fmap. Qed.

Lemma length_appendChild p c d : length (appendChild p c d) = length d.
Proof. unfold appendChild. now rewrite length_alter, length_detach. Qed.

Lemma length_removeChild p c d : length (removeChild p c d) = length d.
Proof. apply length_alter. Qed.

Lemma length_setClassName i c d : length (setClassName i c d) = length d.
Proof. apply length_alter. Qed.

Lemma length_classListAdd i c d : length (classListAdd i c d) = length d.
Proof. apply length_alter. Qed.

Lemma length_classListRemove i c d : length (classListRemove i c d) = length d.
Proof. apply length_alter. Qed.

Lemma length_setAttribute i k v d : length (setAttribute i k v d) = length d.
Proof. apply length_alter. Qed.

Lemma length_setTextContent i t d : length (setTextContent i t d) = length d.
Proof. apply length_alter. Qed.

Lemma length_addClickListener i h d : length (addClickListener i h d) = length d.
Proof. apply length_alter. Qed.

(** The markup builder only appends to the heap: elements that were there
    keep their index and their content. *)
Lemma build_unfold tag attrs kids d :
  build (MNode tag attrs kids) d =
  let '(ids, d2) := buildAll kids (d ++ [with_attributes attrs (blank tag)]) in
  (length d, alter (with_childNodes ids) (length d) d2).
Proof. reflexivity. Qed.

Lemma extends_refl d : extends d d.
Proof. split; [lia | reflexivity]. Qed.

Lemma extends_trans d1 d2 d3 : extends d1 d2 -> extends d2 d3 -> extends d1 d3.
Proof.
  intros [L1 H1] [L2 H2]. split; [lia|].
  intros i Hi. rewrite H2 by lia. now apply H1.
Qed.

Lemma extends_app d l : extends d (d ++ l).
Proof.
  split; [rewrite length_app; lia|]. intros i Hi. now apply lookup_app_l.
Qed.

Lemma extends_alter_new f j d d' : extends d d' -> length d <= j -> extends d (alter f j d').
Proof.
  intros [L H] Hj. split; [now rewrite length_alter|].
  intros i Hi. rewrite list_lookup_alter_ne by lia. now apply H.
Qed.

Lemma build_extends : forall m d,
  extends d (snd (build m d)) /\ fst (build m d) = length d /\ length d < length (snd (build m d)).
Proof.
  fix IH 1. intros [tag attrs kids] d. rewrite build_unfold.
  assert (Hall : forall d0, extends d0 (snd (buildAll kids d0))).
  { clear d. induction kids as [|k r IHr]; intros d0; simpl.
    - apply extends_refl.
    - destruct (IH k d0) as (Hk & _ & _).
      destruct (build k d0) as [i d'] eqn:Ek. simpl in Hk.
      specialize (IHr d').
      destruct (buildAll r d') as [rest d''] eqn:Er. simpl in *.
      eapply extends_trans; eassumption. }
  specialize (Hall (d ++ [with_attributes attrs (blank tag)])).
  destruct (buildAll kids (d ++ [with_attributes attrs (blank tag)])) as [ids d2].
  simpl in *.
  assert (Hd : extends d d2) by (eapply extends_trans; [apply extends_app | exact Hall]).
  destruct Hall as [L _]. rewrite length_app in L. simpl in L.
  split; [|split].
  - apply extends_alter_new; [exact Hd | lia].
  - reflexivity.
  - rewrite length_alter. lia.
Qed.

Lemma buildAll_extends ms : forall d,
  extends d (snd (buildAll ms d)) /\ Forall (fun i => length d <= i) (fst (buildAll ms d)).
Proof.
  induction ms as [|k r IHr]; intros d; simpl.
  - split; [apply extends_refl | constructor].
  - destruct (build_extends k d) as (Hk & Hid & Hlt).
    destruct (build k d) as [i d'] eqn:Ek. simpl in Hk, Hid, Hlt.
    destruct (IHr d') as [Hr Hids].
    destruct (buildAll r d') as [rest d''] eqn:Er. simpl in *.
    split; [eapply extends_trans; eassumption|].
    constructor; [lia|].
    eapply Forall_impl; [exact Hids|]. simpl. intros; lia.
Qed.

End DomFacts.

(** * Building the subtree *)

Section Grows.

Variable k : nat.
Variable b : State.

Lemma grows_refl : k <= length (dom (world b)) -> grows k b b.
Proof.
  intros Hk. repeat split; auto.
Qed.

Lemma grows_onThis (f : Modal -> Modal) (x : State) :
  (forall m, sameFields m (f m)) -> grows k b x -> grows k b (onThis f x).
Proof.
  intros Hf (Hk & (F1 & F2 & F3 & F4) & Hw & Hd).
  destruct (Hf (this x)) as (G1 & G2 & G3 & G4).
  split; [assumption|]. split; [|split; assumption].
  unfold sameFields. simpl. repeat split; congruence.
Qed.

Lemma grows_onDom (f : list Element -> list Element) (x : State) :
  keeps k f -> grows k b x -> grows k b (onDom f x).
Proof.
  intros Hf (Hk & Hm & Hw & (Hl & Hd)).
  destruct (Hf (dom (world x))) as [Gl Gd]; [lia|].
  split; [assumption|]. split; [assumption|]. split; [exact Hw|].
  split; simpl; [lia|].
  intros i Hi. destruct (Gd i Hi) as [G1 G2]. destruct (Hd i Hi) as [D1 D2].
  split; congruence.
Qed.

Lemma keeps_alter_same (g : Element -> Element) (j : nat) :
  (forall el, classList (g el) = classList el /\ clickListeners (g el) = clickListeners el) ->
  keeps k (alter g j).
Proof.
  intros Hg d _. split; [now rewrite length_alter|].
  intros i _. rewrite list_lookup_alter. destruct (decide (j = i)) as [->|]; [|now split].
  destruct (d !! i) as [el|]; simpl; [|now split].
  destruct (Hg el) as [-> ->]. now split.
Qed.

Lemma keeps_alter_new (g : Element -> Element) (j : nat) : k <= j -> keeps k (alter g j).
Proof.
  intros Hj d _. split; [now rewrite length_alter|].
  intros i Hi. now rewrite list_lookup_alter_ne by lia.
Qed.

Lemma keeps_setAttribute j key v : keeps k (Dom.setAttribute j key v).
Proof. apply keeps_alter_same. intros el. split; reflexivity. Qed.

Lemma keeps_setTextContent j t : keeps k (Dom.setTextContent j t).
Proof. apply keeps_alter_same. intros el. split; reflexivity. Qed.

Lemma keeps_setClassName j cls : k <= j -> keeps k (Dom.setClassName j cls).
Proof. apply keeps_alter_new. Qed.

Lemma keeps_addClickListener j h : k <= j -> keeps k (Dom.addClickListener j h).
Proof. apply keeps_alter_new. Qed.

Lemma keeps_detach c : keeps k (Dom.detach c).
Proof.
  intros d _. split; [now rewrite DomFacts.length_detach|].
  intros i _. unfold Dom.detach. rewrite list_lookup_fmap.
  destruct (d !! i); simpl; now split.
Qed.

Lemma keeps_compose f g : keeps k f -> keeps k g -> keeps k (fun d => f (g d)).
Proof.
  intros Hf Hg d Hd. destruct (Hg d Hd) as [Gl Gd].
  destruct (Hf (g d)) as [Fl Fd]; [lia|].
  split; [lia|]. intros i Hi.
  destruct (Gd i Hi) as [G1 G2]. destruct (Fd i Hi) as [F1 F2]. split; congruence.
Qed.

Lemma keeps_appendChild p c : keeps k (Dom.appendChild p c).
Proof.
  unfold Dom.appendChild.
  apply (keeps_compose (alter _ p) (Dom.detach c)); [|apply keeps_detach].
  apply keeps_alter_same. intros el. split; reflexivity.
Qed.

Lemma keeps_appendAll p els : keeps k (appendAll p els).
Proof.
  induction els as [|c r IH]; intros d Hd; simpl.
  - split; [lia | easy].
  - destruct (keeps_appendChild p c d Hd) as [Al Ad].
    destruct (IH (Dom.appendChild p c d)) as [Rl Rd]; [lia|].
    split; [lia|]. intros i Hi.
    destruct (Ad i Hi) as [A1 A2]. destruct (Rd i Hi) as [R1 R2]. split; congruence.
Qed.

Lemma keeps_extends (f : list Element -> list Element) :
  (forall d, extends d (f d)) -> keeps k f.
Proof.
  intros Hf d Hk. destruct (Hf d) as [Hl Hd]. split; [assumption|].
  intros i Hi. now rewrite Hd by lia.
Qed.

Lemma keeps_snoc el : keeps k (fun d => d ++ [el]).
Proof. apply keeps_extends. intros d. apply DomFacts.extends_app. Qed.

Lemma keeps_setInnerHTML parse j str : keeps k (Dom.setInnerHTML parse j str).
Proof.
  intros d Hk. unfold Dom.setInnerHTML.
  set (ms := if String.eqb str "" then [] else parse str).
  destruct (DomFacts.buildAll_extends ms (alter (Dom.with_childNodes []) j d)) as [[Hl Hd] _].
  destruct (Dom.buildAll ms (alter (Dom.with_childNodes []) j d)) as [ids d1].
  simpl in Hl, Hd. rewrite length_alter in Hl, Hd.
  split; [rewrite length_alter; lia|].
  intros i Hi.
  assert (Hstep : forall (g : Element -> Element) (d0 : list Element),
             (forall el, classList (g el) = classList el /\
                         clickListeners (g el) = clickListeners el) ->
             classList <$> alter g j d0 !! i = classList <$> d0 !! i /\
             clickListeners <$> alter g j d0 !! i = clickListeners <$> d0 !! i).
  { intros g d0 Hg. rewrite list_lookup_alter. destruct (decide (j = i)) as [->|]; [|now split].
    destruct (d0 !! i) as [el|]; simpl; [|now split]. destruct (Hg el) as [-> ->]. now split. }
  destruct (Hstep (Dom.with_childNodes ids) d1) as [A1 A2]; [intros; split; reflexivity|].
  destruct (Hstep (Dom.with_childNodes []) d) as [B1 B2]; [intros; split; reflexivity|].
  rewrite A1, A2, (Hd i) by lia. split; assumption.
Qed.

(** [document.createElement] during the build: the new identity lies
    beyond the frozen part. *)
Lemma grows_newElement tag (x : State) :
  grows k b x ->
  grows k b (snd (newElement tag x)) /\ k <= fst (newElement tag x).
Proof.
  intros G. unfold newElement, Dom.createElement. simpl. split.
  - apply grows_onDom; [apply keeps_snoc | exact G].
  - destruct G as (Hk & _ & _ & (Hl & _)). lia.
Qed.

End Grows.

Lemma grows_let k b (e : State) (f : State -> State) :
  grows k b e -> (forall x, grows k b x -> grows k b (f x)) ->
  grows k b (let x := e in f x).
Proof. intros He Hf. apply Hf, He. Qed.

Lemma grows_call k b (r : nat * State) (f : nat -> State -> State) :
  growsWith k b r -> (forall id x, k <= id -> grows k b x -> grows k b (f id x)) ->
  grows k b (let '(id, x) := r in f id x).
Proof. intros [Hr Hid] Hf. destruct r as [id x]. now apply Hf. Qed.

Lemma growsWith_let k b (e : State) (f : State -> nat * State) :
  grows k b e -> (forall x, grows k b x -> growsWith k b (f x)) ->
  growsWith k b (let x := e in f x).
Proof. intros He Hf. apply Hf, He. Qed.

Lemma growsWith_call k b (r : nat * State) (f : nat -> State -> nat * State) :
  growsWith k b r -> (forall id x, k <= id -> grows k b x -> growsWith k b (f id x)) ->
  growsWith k b (let '(id, x) := r in f id x).
Proof. intros [Hr Hid] Hf. destruct r as [id x]. now apply Hf. Qed.

Lemma growsWith_newElement k b tag x : grows k b x -> growsWith k b (newElement tag x).
Proof. intros G. now apply grows_newElement. Qed.

Lemma growsWith_pair k b id x : k <= id -> grows k b x -> growsWith k b (id, x).
Proof. intros Hid G. now split. Qed.

(** One step through a chain of statements. *)
Ltac grow_dom :=
  apply grows_onDom;
  [ first [ apply keeps_setAttribute | apply keeps_setTextContent
          | apply keeps_appendChild | apply keeps_appendAll
          | apply keeps_setInnerHTML
          | apply keeps_setClassName; assumption
          | apply keeps_addClickListener; assumption ] | ].

Ltac grow :=
  lazymatch goal with
  | |- growsWith ?k ?b (let '(id, x) := newElement ?tag ?s in @?f id x) =>
      apply (growsWith_call k b (newElement tag s) f);
      [apply growsWith_newElement | intros ? ? ? ?]
  | |- growsWith ?k ?b (let x := ?e in @?f x) =>
      apply (growsWith_let k b e f); [ | intros ? ?]
  | |- growsWith _ _ (_, _) => apply growsWith_pair; [assumption | ]
  | |- grows ?k ?b (let '(id, x) := newElement ?tag ?s in @?f id x) =>
      apply (grows_call k b (newElement tag s) f);
      [apply growsWith_newElement | intros ? ? ? ?]
  | |- grows ?k ?b (let x := ?e in @?f x) =>
      apply (grows_let k b e f); [ | intros ? ?]
  | |- grows _ _ (onThis _ _) =>
      apply grows_onThis; [intros ?; repeat split | ]
  | |- grows _ _ (onDom _ _) => grow_dom
  | |- grows _ _ (match ?c with _ => _ end) => destruct c
  | |- grows _ _ _ => assumption
  end.

Lemma createHeader_grows parse k b s :
  grows k b s -> growsWith k b (createHeader parse s).
Proof. intros G. unfold createHeader. repeat grow. Qed.

Lemma createBody_grows parse k b s :
  grows k b s -> growsWith k b (createBody parse s).
Proof. intros G. unfold createBody. repeat grow. Qed.

Lemma grows_open k b (r : nat * State) (f : nat -> State -> State) :
  grows k b (f (fst r) (snd r)) -> grows k b (let '(id, x) := r in f id x).
Proof. destruct r as [id x]. exact (fun H => H). Qed.

Lemma portalCreated_eq s :
  portalCreated s =
  onDom (Dom.setClassName (fst (newElement "div" s)) ["modal-portal"])
    (onThis (set_portal (Some (fst (newElement "div" s)))) (snd (newElement "div" s))).
Proof. reflexivity. Qed.

Lemma createElement_grows parse s :
  grows (S (length (dom (world s)))) (portalCreated s) (createElement parse s).
Proof.
  assert (G0 : grows (S (length (dom (world s)))) (portalCreated s) (portalCreated s)).
  { apply grows_refl. unfold portalCreated, newElement, Dom.createElement. simpl.
    rewrite DomFacts.length_setClassName, length_app. simpl. lia. }
  rewrite portalCreated_eq in G0 at 2.
  unfold createElement.
  lazymatch goal with
  | |- grows ?k ?b (let '(id, x) := ?r in @?f id x) =>
      apply (grows_open k b r f); cbv beta
  end.
  repeat first
    [ lazymatch goal with
      | |- grows ?k ?b (let '(id, x) := createHeader ?p ?s in @?f id x) =>
          apply (grows_call k b (createHeader p s) f);
          [apply createHeader_grows | intros ? ? ? ?]
      | |- grows ?k ?b (let '(id, x) := createBody ?p ?s in @?f id x) =>
          apply (grows_call k b (createBody p s) f);
          [apply createBody_grows | intros ? ? ? ?]
      | |- grows _ _ (onDom (Dom.setClassName (fst (newElement _ _)) _) _) => exact G0
      end
    | grow ].
Qed.

Lemma portalCreated_fields s :
  portal (this (portalCreated s)) = Some (length (dom (world s))) /\
  props (this (portalCreated s)) = props (this s) /\
  previousFocusedElement (this (portalCreated s)) = previousFocusedElement (this s) /\
  focusableElements (this (portalCreated s)) = focusableElements (this s) /\
  sameHost (world s) (world (portalCreated s)).
Proof. repeat split. Qed.

Lemma portalCreated_dom s :
  dom (world (portalCreated s)) =
  Dom.setClassName (length (dom (world s))) ["modal-portal"]
    (dom (world s) ++ [Dom.blank "div"]).
Proof. reflexivity. Qed.

(** What [createElement] leaves behind. *)
Lemma createElement_fields parse s :
  portal (this (createElement parse s)) = Some (length (dom (world s))) /\
  props (this (createElement parse s)) = props (this s) /\
  previousFocusedElement (this (createElement parse s)) = previousFocusedElement (this s) /\
  focusableElements (this (createElement parse s)) = focusableElements (this s).
Proof.
  destruct (createElement_grows parse s) as (_ & (F1 & F2 & F3 & F4) & _ & _).
  destruct (portalCreated_fields s) as (P1 & P2 & P3 & P4 & _).
  repeat split; congruence.
Qed.

Lemma createElement_host parse s : sameHost (world s) (world (createElement parse s)).
Proof.
  destruct (createElement_grows parse s) as (_ & _ & H & _).
  exact H.
Qed.

Lemma createElement_length parse s :
  length (dom (world s)) < length (dom (world (createElement parse s))).
Proof.
  destruct (createElement_grows parse s) as (_ & _ & _ & (Hl & _)).
  rewrite portalCreated_dom, DomFacts.length_setClassName, length_app in Hl.
  cbn [length] in Hl. lia.
Qed.

Lemma createElement_portal_class parse s :
  classList <$> dom (world (createElement parse s)) !! length (dom (world s))
  = Some ["modal-portal"].
Proof.
  destruct (createElement_grows parse s) as (_ & _ & _ & (_ & Hd)).
  destruct (Hd (length (dom (world s)))) as [-> _]; [lia|].
  rewrite portalCreated_dom. unfold Dom.setClassName.
  rewrite list_lookup_alter_eq, lookup_app_r by lia.
  now rewrite Nat.sub_diag.
Qed.

Lemma createElement_old parse s i :
  i < length (dom (world s)) ->
  classList <$> dom (world (createElement parse s)) !! i = classList <$> dom (world s) !! i /\
  clickListeners <$> dom (world (createElement parse s)) !! i
    = clickListeners <$> dom (world s) !! i.
Proof.
  intros Hi.
  destruct (createElement_grows parse s) as (_ & _ & _ & (_ & Hd)).
  destruct (Hd i) as [-> ->]; [lia|].
  rewrite portalCreated_dom. unfold Dom.setClassName.
  rewrite list_lookup_alter_ne, lookup_app_l by lia. now split.
Qed.

(** * The children of [document.body] *)

Lemma count_without (c i : nat) (l : list nat) :
  count_occ Nat.eq_dec (Dom.without c l) i <= count_occ Nat.eq_dec l i.
Proof.
  induction l as [|x l IH]; simpl; [lia|].
  destruct (Nat.eqb x c); simpl; destruct (Nat.eq_dec x i); lia.
Qed.

Lemma shrinks_refl d : shrinks d d.
Proof. intros i. lia. Qed.

Lemma shrinks_trans d1 d2 d3 : shrinks d1 d2 -> shrinks d2 d3 -> shrinks d1 d3.
Proof. intros H1 H2 i. specialize (H1 i). specialize (H2 i). lia. Qed.

Lemma shrinks_same d d' :
  Dom.childrenOf d' Dom.BODY = Dom.childrenOf d Dom.BODY -> shrinks d d'.
Proof. intros H i. rewrite H. lia. Qed.

Lemma gentle_alter_other k (g : Element -> Element) (j : nat) :
  j <> Dom.BODY -> gentle k (alter g j).
Proof.
  intros Hj d _ _. split; [now rewrite length_alter|].
  apply shrinks_same. unfold Dom.childrenOf. now rewrite list_lookup_alter_ne.
Qed.

Lemma gentle_detach k c : gentle k (Dom.detach c).
Proof.
  intros d _ _. split; [now rewrite DomFacts.length_detach|].
  intros i. unfold Dom.childrenOf, Dom.detach. rewrite list_lookup_fmap.
  destruct (d !! Dom.BODY); simpl; [apply count_without | lia].
Qed.

Lemma gentle_compose k f g : gentle k f -> gentle k g -> gentle k (fun d => f (g d)).
Proof.
  intros Hf Hg d Hk Hd. destruct (Hg d Hk Hd) as [Gl Gs].
  destruct (Hf (g d) Hk) as [Fl Fs]; [lia|].
  split; [lia|]. eapply shrinks_trans; eassumption.
Qed.

Lemma gentle_appendChild k p c : p <> Dom.BODY -> gentle k (Dom.appendChild p c).
Proof.
  intros Hp. unfold Dom.appendChild.
  apply (gentle_compose k (alter _ p) (Dom.detach c));
    [now apply gentle_alter_other | apply gentle_detach].
Qed.

Lemma gentle_appendAll k p els : p <> Dom.BODY -> gentle k (appendAll p els).
Proof.
  intros Hp. induction els as [|c r IH]; intros d Hk Hd; simpl.
  - split; [lia | apply shrinks_refl].
  - destruct (gentle_appendChild k p c Hp d Hk Hd) as [Al As].
    destruct (IH (Dom.appendChild p c d) Hk) as [Rl Rs]; [lia|].
    split; [lia|]. eapply shrinks_trans; eassumption.
Qed.

Lemma gentle_extends k (f : list Element -> list Element) :
  (forall d, extends d (f d)) -> gentle k f.
Proof.
  intros Hf d Hk Hd. destruct (Hf d) as [Hl Hlook]. split; [assumption|].
  apply shrinks_same. unfold Dom.childrenOf. rewrite Hlook; [reflexivity|].
  unfold Dom.BODY. lia.
Qed.

Lemma gentle_snoc k el : gentle k (fun d => d ++ [el]).
Proof. apply gentle_extends. intros d. apply DomFacts.extends_app. Qed.

Lemma gentle_setInnerHTML k parse j str :
  j <> Dom.BODY -> gentle k (Dom.setInnerHTML parse j str).
Proof.
  intros Hj d Hk Hd. unfold Dom.setInnerHTML.
  set (ms := if String.eqb str "" then [] else parse str).
  destruct (DomFacts.buildAll_extends ms (alter (Dom.with_childNodes []) j d)) as [[Hl Hlook] _].
  destruct (Dom.buildAll ms (alter (Dom.with_childNodes []) j d)) as [ids d1].
  simpl in Hl, Hlook. rewrite length_alter in Hl, Hlook.
  split; [rewrite length_alter; lia|].
  apply shrinks_same. unfold Dom.childrenOf.
  rewrite list_lookup_alter_ne by exact Hj.
  rewrite Hlook by (unfold Dom.BODY; lia).
  now rewrite list_lookup_alter_ne by exact Hj.
Qed.

Lemma builds_refl k b : 0 < k -> k <= length (dom (world b)) -> builds k b b.
Proof.
  intros Hk Hl. split; [exact Hk|]. split; [exact Hl|].
  split; [apply shrinks_refl|]. intros y Hy. now left.
Qed.

Lemma builds_onThis k b (f : Modal -> Modal) (x : State) :
  (forall m, body (f m) = body m) -> builds k b x -> builds k b (onThis f x).
Proof.
  intros Hf (Hk & Hl & Hs & Hb). split; [exact Hk|]. split; [exact Hl|].
  split; [exact Hs|]. intros y Hy. apply Hb. simpl in Hy. now rewrite Hf in Hy.
Qed.

Lemma builds_set_body k b (id : nat) (x : State) :
  k <= id -> builds k b x -> builds k b (onThis (set_body (Some id)) x).
Proof.
  intros Hid (Hk & Hl & Hs & Hb). split; [exact Hk|]. split; [exact Hl|].
  split; [exact Hs|]. intros y Hy. simpl in Hy. injection Hy as <-. now right.
Qed.

Lemma builds_onDom k b (f : list Element -> list Element) (x : State) :
  gentle k f -> builds k b x -> builds k b (onDom f x).
Proof.
  intros Hf (Hk & Hl & Hs & Hb). destruct (Hf (dom (world x)) Hk Hl) as [Fl Fs].
  split; [exact Hk|]. split; [simpl; lia|].
  split; [eapply shrinks_trans; eassumption | exact Hb].
Qed.

Lemma buildsWith_newElement k b tag x : builds k b x -> buildsWith k b (newElement tag x).
Proof.
  intros G. split.
  - unfold newElement. cbn [snd]. apply builds_onDom; [|exact G].
    unfold Dom.createElement. cbn [snd]. apply gentle_snoc.
  - unfold newElement, Dom.createElement. cbn [fst]. apply G.
Qed.

Lemma builds_call k b (r : nat * State) (f : nat -> State -> State) :
  buildsWith k b r -> (forall id x, k <= id -> builds k b x -> builds k b (f id x)) ->
  builds k b (let '(id, x) := r in f id x).
Proof. intros [Hr Hid] Hf. destruct r as [id x]. now apply Hf. Qed.

Lemma buildsWith_call k b (r : nat * State) (f : nat -> State -> nat * State) :
  buildsWith k b r -> (forall id x, k <= id -> builds k b x -> buildsWith k b (f id x)) ->
  buildsWith k b (let '(id, x) := r in f id x).
Proof. intros [Hr Hid] Hf. destruct r as [id x]. now apply Hf. Qed.

Lemma builds_let k b (e : State) (f : State -> State) :
  builds k b e -> (forall x, builds k b x -> builds k b (f x)) ->
  builds k b (let x := e in f x).
Proof. intros He Hf. now apply Hf. Qed.

Lemma buildsWith_let k b (e : State) (f : State -> nat * State) :
  builds k b e -> (forall x, builds k b x -> buildsWith k b (f x)) ->
  buildsWith k b (let x := e in f x).
Proof. intros He Hf. now apply Hf. Qed.

Lemma buildsWith_pair k b id x : k <= id -> builds k b x -> buildsWith k b (id, x).
Proof. intros Hid G. now split. Qed.

Ltac not_body :=
  match goal with
  | Hk : 0 < ?k, Hid : ?k <= ?id |- ?id <> Dom.BODY => unfold Dom.BODY; lia
  end.

Ltac build_dom :=
  apply builds_onDom;
  [ first [ apply gentle_alter_other; not_body
          | apply gentle_appendChild; not_body
          | apply gentle_appendAll; not_body
          | apply gentle_setInnerHTML; not_body ] | ].

Ltac build_step :=
  lazymatch goal with
  | |- buildsWith ?k ?b (let '(id, x) := newElement ?tag ?s in @?f id x) =>
      apply (buildsWith_call k b (newElement tag s) f);
      [apply buildsWith_newElement | intros ? ? ? ?]
  | |- buildsWith ?k ?b (let x := ?e in @?f x) =>
      apply (buildsWith_let k b e f); [ | intros ? ?]
  | |- buildsWith _ _ (_, _) => apply buildsWith_pair; [assumption | ]
  | |- builds ?k ?b (let '(id, x) := newElement ?tag ?s in @?f id x) =>
      apply (builds_call k b (newElement tag s) f);
      [apply buildsWith_newElement | intros ? ? ? ?]
  | |- builds ?k ?b (let x := ?e in @?f x) =>
      apply (builds_let k b e f); [ | intros ? ?]
  | |- builds _ _ (onThis (set_body (Some _)) _) => apply builds_set_body; [assumption | ]
  | |- builds _ _ (onThis _ _) => apply builds_onThis; [intros ?; reflexivity | ]
  | |- builds _ _ (onDom _ _) => build_dom
  | |- builds _ _ (match ?c with _ => _ end) => destruct c
  | |- builds _ _ _ => assumption
  end.

Lemma createHeader_builds parse k b s :
  0 < k -> builds k b s -> buildsWith k b (createHeader parse s).
Proof. intros Hk G. unfold createHeader. repeat build_step. Qed.

Lemma createBody_builds parse k b s :
  0 < k -> builds k b s -> buildsWith k b (createBody parse s).
Proof. intros Hk G. unfold createBody. repeat build_step. Qed.

Lemma createElement_builds parse s :
  dom (world s) <> [] ->
  builds (length (dom (world s))) s (createElement parse s).
Proof.
  intros Hd.
  assert (Hk : 0 < length (dom (world s))).
  { destruct (dom (world s)); [congruence | simpl; lia]. }
  assert (G0 : builds (length (dom (world s))) s s) by (now apply builds_refl).
  unfold createElement.
  repeat first
    [ lazymatch goal with
      | |- builds ?k ?b (let '(id, x) := createHeader ?p ?s in @?f id x) =>
          apply (builds_call k b (createHeader p s) f);
          [apply createHeader_builds; [exact Hk|] | intros ? ? ? ?]
      | |- builds ?k ?b (let '(id, x) := createBody ?p ?s in @?f id x) =>
          apply (builds_call k b (createBody p s) f);
          [apply createBody_builds; [exact Hk|] | intros ? ? ? ?]
      end
    | build_step ].
Qed.

(** * [show] *)

Lemma mount_portal parse s :
  portal (this (mount parse s)) =
  Some (match portal (this s) with Some p => p | None => length (dom (world s)) end).
Proof.
  unfold mount. destruct (portal (this s)) eqn:E; [exact E|].
  apply createElement_fields.
Qed.

Lemma mount_fields parse s :
  props (this (mount parse s)) = props (this s) /\
  previousFocusedElement (this (mount parse s)) = previousFocusedElement (this s) /\
  focusableElements (this (mount parse s)) = focusableElements (this s) /\
  sameHost (world s) (world (mount parse s)) /\
  length (dom (world s)) <= length (dom (world (mount parse s))).
Proof.
  unfold mount. destruct (portal (this s)).
  - repeat split. lia.
  - destruct (createElement_fields parse s) as (_ & F2 & F3 & F4).
    pose proof (createElement_host parse s). pose proof (createElement_length parse s).
    repeat split; try assumption; try apply H. lia.
Qed.

Ltac open_show parse s :=
  let c := fresh "c" in
  unfold show; fold (mount parse s); generalize (mount parse s); intros c;
  destruct c as [[po ba mo he bo cb pr pf fe] [d ov kl ae nw tm fr cl]].

Ltac state_simpl :=
  cbn [this world portal backdrop modal header body closeButton props
       previousFocusedElement focusableElements
       dom bodyOverflow keydownListeners activeElement now timers frames closeLog
       set_portal set_backdrop set_modal set_header set_body set_closeButton
       set_props set_previousFocusedElement set_focusableElements
       set_dom set_bodyOverflow set_keydownListeners set_activeElement set_now
       set_timers set_frames set_closeLog
       onThis onWorld onDom focus addKeydownListener removeKeydownListener
       setTimeout requestAnimationFrame fst snd].

Ltac crunch :=
  state_simpl;
  repeat (match goal with
          | |- context [match ?c with _ => _ end] =>
              lazymatch c with
              | context [match _ with _ => _ end] => fail
              | _ => destruct c eqn:?; state_simpl
              end
          end);
  try reflexivity; try assumption; try (symmetry; assumption).

Lemma show_this parse s :
  portal (this (show parse s)) = portal (this (mount parse s)) /\
  backdrop (this (show parse s)) = backdrop (this (mount parse s)) /\
  modal (this (show parse s)) = modal (this (mount parse s)) /\
  header (this (show parse s)) = header (this (mount parse s)) /\
  body (this (show parse s)) = body (this (mount parse s)) /\
  closeButton (this (show parse s)) = closeButton (this (mount parse s)) /\
  props (this (show parse s)) = props (this (mount parse s)).
Proof. open_show parse s. repeat split; crunch. Qed.

Lemma show_previous parse s :
  previousFocusedElement (this (show parse s)) = activeElement (world (mount parse s)).
Proof. open_show parse s. crunch. Qed.

Lemma show_dom parse s :
  dom (world (show parse s)) =
  match portal (this (mount parse s)) with
  | Some p => Dom.appendChild Dom.BODY p (dom (world (mount parse s)))
  | None => dom (world (mount parse s))
  end.
Proof. open_show parse s. crunch. Qed.

Lemma show_keydown parse s :
  keydownListeners (world (show parse s)) =
  withListener TrapFocus
    (if notFalse (closeOnEscape (props (this s)))
     then withListener HandleEscapeKey (keydownListeners (world s))
     else keydownListeners (world s)).
Proof.
  destruct (mount_fields parse s) as (<- & _ & _ & (_ & <- & _) & _).
  open_show parse s. unfold withListener. crunch.
Qed.

Lemma show_host parse s :
  bodyOverflow (world (show parse s)) = "hidden" /\
  now (world (show parse s)) = now (world s) /\
  timers (world (show parse s)) = timers (world s) /\
  frames (world (show parse s)) = frames (world s) ++ [AddOpenClass] /\
  closeLog (world (show parse s)) = closeLog (world s).
Proof.
  destruct (mount_fields parse s) as (_ & _ & _ & (_ & _ & _ & <- & <- & <- & <-) & _).
  open_show parse s. repeat split; crunch.
Qed.

Lemma show_focusable parse s :
  focusableElements (this (show parse s)) = getFocusableElements (show parse s).
Proof. open_show parse s. unfold getFocusableElements. crunch. Qed.

Lemma show_active parse s :
  activeElement (world (show parse s)) =
  match focusableElements (this (show parse s)) with
  | el :: _ => Some el
  | [] => match modal (this (show parse s)) with
          | Some m => Some m
          | None => activeElement (world s)
          end
  end.
Proof.
  destruct (mount_fields parse s) as (_ & _ & _ & (_ & _ & <- & _) & _).
  open_show parse s. unfold getFocusableElements. crunch.
Qed.

(** * Children and classes in the heap *)

Lemma childrenOf_appendChild d p c :
  p < length d ->
  Dom.childrenOf (Dom.appendChild p c d) p = Dom.without c (Dom.childrenOf d p) ++ [c].
Proof.
  intros Hp. unfold Dom.childrenOf, Dom.appendChild, Dom.detach.
  rewrite list_lookup_alter_eq, list_lookup_fmap.
  destruct (lookup_lt_is_Some_2 d p Hp) as [e ->]. reflexivity.
Qed.

Lemma childrenOf_appendChild_other d p c i :
  i <> p ->
  Dom.childrenOf (Dom.appendChild p c d) i = Dom.without c (Dom.childrenOf d i).
Proof.
  intros Hi. unfold Dom.childrenOf, Dom.appendChild, Dom.detach.
  rewrite list_lookup_alter_ne, list_lookup_fmap by congruence.
  destruct (d !! i); reflexivity.
Qed.

Lemma childrenOf_removeChild d p c :
  Dom.childrenOf (Dom.removeChild p c d) p = Dom.without c (Dom.childrenOf d p).
Proof.
  unfold Dom.childrenOf, Dom.removeChild. rewrite list_lookup_alter_eq.
  destruct (d !! p); reflexivity.
Qed.

Lemma findParent_None c d : forall k,
  Dom.findParent c d k = None -> forall i, ~ In c (Dom.childrenOf d i).
Proof.
  induction d as [|e d IH]; intros k H i.
  - unfold Dom.childrenOf. rewrite lookup_nil. simpl. tauto.
  - simpl in H. destruct (Dom.mem c (childNodes e)) eqn:E; [discriminate|].
    destruct i as [|i].
    + unfold Dom.childrenOf. simpl. now apply DomFacts.mem_false.
    + apply (IH (S k) H i).
Qed.

Lemma parentNode_None d c :
  Dom.parentNode d c = None -> forall i, ~ In c (Dom.childrenOf d i).
Proof. apply findParent_None. Qed.

Lemma hasClass_lookup i c d :
  Dom.hasClass i c d =
  match classList <$> d !! i with
  | Some l => Dom.memStr c l
  | None => false
  end.
Proof. unfold Dom.hasClass. destruct (d !! i); reflexivity. Qed.

Lemma hasClass_appendChild i c p x d :
  Dom.hasClass i c (Dom.appendChild p x d) = Dom.hasClass i c d.
Proof.
  rewrite !hasClass_lookup. unfold Dom.appendChild, Dom.detach.
  rewrite list_lookup_alter. destruct (decide (p = i)) as [->|].
  - rewrite list_lookup_fmap. destruct (d !! i); reflexivity.
  - rewrite list_lookup_fmap. destruct (d !! i); reflexivity.
Qed.

Lemma memStr_filter_out c l :
  Dom.memStr c (List.filter (fun x => negb (String.eqb x c)) l) = false.
Proof.
  unfold Dom.memStr. induction l as [|x l IH]; [reflexivity|]. simpl.
  destruct (String.eqb x c) eqn:E; simpl; [exact IH|].
  rewrite String.eqb_sym, E. exact IH.
Qed.

Lemma hasClass_classListRemove p c d :
  Dom.hasClass p c (Dom.classListRemove p c d) = false.
Proof.
  unfold Dom.hasClass, Dom.classListRemove. rewrite list_lookup_alter_eq.
  destruct (d !! p); simpl; [apply memStr_filter_out | reflexivity].
Qed.

Lemma memStr_snoc c l : Dom.memStr c (l ++ [c]) = true.
Proof.
  unfold Dom.memStr. rewrite existsb_app. simpl.
  rewrite String.eqb_refl. apply orb_true_iff. right. reflexivity.
Qed.

Lemma hasClass_classListAdd p c d :
  p < length d -> Dom.hasClass p c (Dom.classListAdd p c d) = true.
Proof.
  intros Hp. unfold Dom.hasClass, Dom.classListAdd. rewrite list_lookup_alter_eq.
  destruct (lookup_lt_is_Some_2 d p Hp) as [e ->]. simpl.
  destruct (Dom.memStr c (classList e)) eqn:E; [exact E|]. simpl. apply memStr_snoc.
Qed.

Lemma hasClass_classListAdd_keep p c q d :
  Dom.hasClass p c d = true -> Dom.hasClass p c (Dom.classListAdd q c d) = true.
Proof.
  unfold Dom.hasClass, Dom.classListAdd. rewrite list_lookup_alter.
  destruct (decide (q = p)) as [->|]; [|easy].
  destruct (d !! p) as [e|]; simpl; [|easy].
  intros H. now rewrite H.
Qed.

(** * Listeners, frames and the portal after [show] *)

Lemma keyHandler_eqb_eq a b : keyHandler_eqb a b = true <-> a = b.
Proof. destruct a, b; simpl; split; congruence. Qed.

Lemma existsb_keyHandler h l : existsb (keyHandler_eqb h) l = true <-> In h l.
Proof.
  rewrite existsb_exists. split.
  - intros (x & Hx & E). apply keyHandler_eqb_eq in E. now subst.
  - intros H. exists h. split; [assumption | now apply keyHandler_eqb_eq].
Qed.

Lemma in_withListener h x l : In x (withListener h l) <-> x = h \/ In x l.
Proof.
  unfold withListener. destruct (existsb (keyHandler_eqb h) l) eqn:E.
  - apply existsb_keyHandler in E. split; [tauto|]. intros [->|H]; assumption.
  - rewrite in_app_iff. simpl. intuition congruence.
Qed.

Lemma NoDup_withListener h l : List.NoDup l -> List.NoDup (withListener h l).
Proof.
  intros H. unfold withListener. destruct (existsb (keyHandler_eqb h) l) eqn:E; [exact H|].
  assert (Hn : ~ In h l).
  { intros Hin. apply existsb_keyHandler in Hin. congruence. }
  clear E. induction H as [|x l Hx Hl IH]; simpl.
  - constructor; [auto | constructor].
  - constructor.
    + rewrite in_app_iff. simpl. intros [H1|[H1|[]]]; [tauto|]. subst. apply Hn. now left.
    + apply IH. intros H1. apply Hn. now right.
Qed.

Lemma addOpenClass_portal s : portal (this (addOpenClass s)) = portal (this s).
Proof.
  unfold addOpenClass. destruct (portal (this s)) eqn:E; [exact E | now rewrite E].
Qed.

Lemma addOpenClass_dom s p :
  portal (this s) = Some p ->
  dom (world (addOpenClass s)) = Dom.classListAdd p "modal-portal--open" (dom (world s)).
Proof. intros H. unfold addOpenClass. rewrite H. reflexivity. Qed.

Lemma frames_add_class p : forall (l : list FrameTask) (x : State),
  portal (this x) = Some p -> p < length (dom (world x)) ->
  l <> [] \/ hasOpenClass p x = true ->
  hasOpenClass p (fold_left (fun s task => runFrame task s) l x) = true.
Proof.
  induction l as [|[] l IH]; intros x Hp Hlen H; simpl.
  - destruct H as [H|H]; [congruence | exact H].
  - apply IH.
    + now rewrite addOpenClass_portal.
    + rewrite (addOpenClass_dom x p Hp), DomFacts.length_classListAdd. exact Hlen.
    + right. unfold hasOpenClass. rewrite (addOpenClass_dom x p Hp).
      now apply hasClass_classListAdd.
Qed.

Lemma show_portal parse s :
  portal (this (show parse s)) =
  Some (match portal (this s) with Some p => p | None => length (dom (world s)) end).
Proof.
  destruct (show_this parse s) as (-> & _). apply mount_portal.
Qed.

Lemma show_attached parse s p :
  dom (world s) <> [] ->
  portal (this (show parse s)) = Some p ->
  bodyChildren (show parse s) = Dom.without p (bodyChildren (mount parse s)) ++ [p].
Proof.
  intros Hd Hp. unfold bodyChildren. rewrite show_dom.
  destruct (show_this parse s) as (E & _). rewrite E in Hp. rewrite Hp.
  apply childrenOf_appendChild.
  destruct (mount_fields parse s) as (_ & _ & _ & _ & Hl).
  destruct (dom (world s)); [congruence|]. simpl in Hl. unfold Dom.BODY. lia.
Qed.

Lemma show_open_class parse s p :
  portal (this (show parse s)) = Some p ->
  hasOpenClass p (show parse s) =
  match portal (this s) with
  | Some _ => hasOpenClass p s
  | None => false
  end.
Proof.
  intros Hp. unfold hasOpenClass. rewrite show_dom.
  destruct (show_this parse s) as (E & _). rewrite E in Hp. rewrite Hp.
  rewrite hasClass_appendChild.
  rewrite mount_portal in Hp. unfold mount.
  destruct (portal (this s)) eqn:Eq; [reflexivity|].
  injection Hp as <-. rewrite hasClass_lookup, createElement_portal_class.
  reflexivity.
Qed.

Lemma show_portal_in_heap parse s p :
  (forall q, portal (this s) = Some q -> q < length (dom (world s))) ->
  portal (this (show parse s)) = Some p ->
  p < length (dom (world (show parse s))).
Proof.
  intros Hwf Hp. rewrite show_dom.
  destruct (show_this parse s) as (E & _). rewrite E in Hp. rewrite Hp.
  rewrite DomFacts.length_appendChild.
  rewrite mount_portal in Hp. injection Hp as <-. unfold mount.
  destruct (portal (this s)) eqn:Eq.
  - now apply Hwf.
  - apply createElement_length.
Qed.

(** ** [hide] and its deferred cleanup *)

Ltac open_state x :=
  destruct x as [[po ba mo he bo cb pr pf fe] [d ov kl ae nw tm fr cl]].

Lemma hide_unmounted s : portal (this s) = None -> hide s = s.
Proof. intros H. unfold hide. now rewrite H. Qed.

Lemma hide_mounted s p :
  portal (this s) = Some p ->
  hide s = setTimeout HideCleanup ANIMATION_MS
             (onDom (Dom.classListRemove p "modal-portal--open") s).
Proof. intros H. unfold hide. now rewrite H. Qed.

Lemma listeners_cleared (l : list KeyHandler) :
  List.filter (fun h => negb (keyHandler_eqb h TrapFocus))
    (List.filter (fun h => negb (keyHandler_eqb h HandleEscapeKey)) l) = [].
Proof.
  induction l as [|[] l IH]; simpl; [reflexivity | exact IH | exact IH].
Qed.

Lemma hideCleanup_this x : this (hideCleanup x) = this x.
Proof. unfold hideCleanup. open_state x. crunch. Qed.

Lemma hideCleanup_listeners x : keydownListeners (world (hideCleanup x)) = [].
Proof.
  rewrite <- (listeners_cleared (keydownListeners (world x))).
  unfold hideCleanup. open_state x. crunch.
Qed.

Lemma hideCleanup_host x :
  bodyOverflow (world (hideCleanup x)) = "" /\
  activeElement (world (hideCleanup x)) =
    match previousFocusedElement (this x) with
    | Some el => Some el
    | None => activeElement (world x)
    end /\
  now (world (hideCleanup x)) = now (world x) /\
  timers (world (hideCleanup x)) = timers (world x) /\
  frames (world (hideCleanup x)) = frames (world x) /\
  closeLog (world (hideCleanup x)) = closeLog (world x).
Proof. unfold hideCleanup. open_state x. repeat split; crunch. Qed.

Lemma hideCleanup_dom x :
  dom (world (hideCleanup x)) =
  match portal (this x) with
  | Some p =>
      match Dom.parentNode (dom (world x)) p with
      | Some _ => Dom.removeChild Dom.BODY p (dom (world x))
      | None => dom (world x)
      end
  | None => dom (world x)
  end.
Proof. unfold hideCleanup. open_state x. crunch. Qed.

Lemma hideCleanup_detached x p :
  portal (this x) = Some p -> ~ In p (bodyChildren (hideCleanup x)).
Proof.
  intros Hp. unfold bodyChildren. rewrite hideCleanup_dom, Hp.
  destruct (Dom.parentNode (dom (world x)) p) eqn:E.
  - rewrite childrenOf_removeChild. apply DomFacts.not_in_without.
  - now apply parentNode_None.
Qed.

(** ** Timers *)

Lemma insertTimer_front (t : Z * TimerTask) (q : list (Z * TimerTask)) :
  Forall (fun x => (fst t < fst x)%Z) q -> insertTimer t q = t :: q.
Proof.
  intros H. destruct H as [|x q Hx Hq]; [reflexivity|]. simpl.
  destruct (Z.leb_spec (fst x) (fst t)); [lia | reflexivity].
Qed.

Lemma insertTimer_back (t : Z * TimerTask) (q : list (Z * TimerTask)) :
  Forall (fun x => (fst x <= fst t)%Z) q -> insertTimer t q = q ++ [t].
Proof.
  induction 1 as [|x q Hx Hq IH]; [reflexivity|]. simpl.
  destruct (Z.leb_spec (fst x) (fst t)); [now rewrite IH | lia].
Qed.

Lemma filter_due_none (deadline : Z) (q : list (Z * TimerTask)) :
  Forall (fun x => (deadline < fst x)%Z) q ->
  List.filter (fun x => (fst x <=? deadline)%Z) q = [] /\
  List.filter (fun x => negb (fst x <=? deadline)%Z) q = q.
Proof.
  induction 1 as [|x q Hx Hq [IH1 IH2]]; [now split|]. simpl.
  destruct (Z.leb_spec (fst x) deadline); [lia|]. simpl. rewrite IH1, IH2. now split.
Qed.

Lemma filter_due_all (deadline : Z) (q : list (Z * TimerTask)) :
  Forall (fun x => (fst x <= deadline)%Z) q ->
  List.filter (fun x => (fst x <=? deadline)%Z) q = q /\
  List.filter (fun x => negb (fst x <=? deadline)%Z) q = [].
Proof.
  induction 1 as [|x q Hx Hq [IH1 IH2]]; [now split|]. simpl.
  destruct (Z.leb_spec (fst x) deadline); [|lia]. simpl. rewrite IH1, IH2. now split.
Qed.

Lemma advance_unfold parse ms s :
  advance parse ms s =
  onWorld (set_now (now (world s) + ms)%Z)
    (fold_left (fire parse)
       (List.filter (fun x => (fst x <=? now (world s) + ms)%Z) (timers (world s)))
       (onWorld (set_timers
          (List.filter (fun x => negb (fst x <=? now (world s) + ms)%Z) (timers (world s)))) s)).
Proof. reflexivity. Qed.

Lemma fold_fire_last parse (l : list (Z * TimerTask)) (x : Z * TimerTask) (y : State) :
  fold_left (fire parse) (l ++ [x]) y = fire parse (fold_left (fire parse) l y) x.
Proof. now rewrite fold_left_app. Qed.


Lemma hide_fields s p :
  portal (this s) = Some p ->
  this (hide s) = this s /\
  dom (world (hide s)) = Dom.classListRemove p "modal-portal--open" (dom (world s)) /\
  timers (world (hide s)) =
    insertTimer ((now (world s) + ANIMATION_MS)%Z, HideCleanup) (timers (world s)) /\
  now (world (hide s)) = now (world s) /\
  keydownListeners (world (hide s)) = keydownListeners (world s) /\
  bodyOverflow (world (hide s)) = bodyOverflow (world s) /\
  activeElement (world (hide s)) = activeElement (world s) /\
  frames (world (hide s)) = frames (world s) /\
  closeLog (world (hide s)) = closeLog (world s).
Proof.
  intros Hp. rewrite (hide_mounted s p Hp). open_state s. repeat split.
Qed.

Lemma childrenOf_classListRemove d p c i :
  Dom.childrenOf (Dom.classListRemove p c d) i = Dom.childrenOf d i.
Proof.
  unfold Dom.childrenOf, Dom.classListRemove. rewrite list_lookup_alter.
  destruct (decide (p = i)) as [->|]; [|reflexivity].
  destruct (d !! i); reflexivity.
Qed.

(** ** [updateProps] and the constructor *)

Lemma updateProps_cases parse newProps s :
  updateProps parse newProps s =
  if isOpen (props (this s)) && negb (isOpen (spread (props (this s)) newProps))
  then hide (withNewProps newProps s)
  else if negb (isOpen (props (this s))) && isOpen (spread (props (this s)) newProps)
  then show parse (withNewProps newProps s)
  else if isOpen (spread (props (this s)) newProps)
  then setTimeout ShowAgain ANIMATION_MS (hide (withNewProps newProps s))
  else withNewProps newProps s.
Proof. reflexivity. Qed.

(** ** The focus trap *)

Lemma isActive_true el s : isActive el s = true <-> activeElement (world s) = Some el.
Proof.
  unfold isActive. destruct (activeElement (world s)) as [a|]; [|split; discriminate].
  rewrite Nat.eqb_eq. split; congruence.
Qed.

Lemma isActive_false el s : isActive el s = false <-> activeElement (world s) <> Some el.
Proof.
  rewrite <- isActive_true. destruct (isActive el s); split; congruence.
Qed.

Lemma escape_ignores_tab event s :
  key event = "Tab" -> handleEscapeKey event s = (s, false).
Proof. intros H. unfold handleEscapeKey. now rewrite H. Qed.

Lemma keydown_unfold event s :
  keydown event s = fold_left (keydownStep event) (keydownListeners (world s)) (s, false).
Proof. reflexivity. Qed.

Lemma keydown_tab_others event (l : list KeyHandler) (acc : State * bool) :
  key event = "Tab" -> ~ In TrapFocus l -> fold_left (keydownStep event) l acc = acc.
Proof.
  intros Hk. revert acc. induction l as [|h l IH]; intros acc Hn; [reflexivity|].
  simpl. destruct h; [|exfalso; apply Hn; now left].
  unfold keydownStep at 2. simpl. rewrite (escape_ignores_tab _ _ Hk), orb_false_r.
  destruct acc as [x b]. simpl. apply IH. intros H. apply Hn. now right.
Qed.

Lemma keydown_tab_trap event (l : list KeyHandler) : forall (x : State) (b : bool),
  key event = "Tab" -> List.NoDup l -> In TrapFocus l ->
  fold_left (keydownStep event) l (x, b)
  = (fst (trapFocus event x), b || snd (trapFocus event x)).
Proof.
  induction l as [|h l IH]; intros x b Hk Hnd Hin; [destruct Hin|].
  inversion Hnd as [|h' l' Hh Hl]; subst. simpl. destruct h.
  - unfold keydownStep at 2. simpl. rewrite (escape_ignores_tab _ _ Hk), orb_false_r.
    apply IH; try assumption. destruct Hin as [H|H]; [discriminate | exact H].
  - unfold keydownStep at 2. simpl. destruct (trapFocus event x) as [x' p'] eqn:E. simpl.
    now apply keydown_tab_others.
Qed.

(** ** [destroy] *)

Lemma destroy_unfold s : destroy s = onThis released (hide s).
Proof. reflexivity. Qed.

Lemma hide_this s : this (hide s) = this s.
Proof.
  destruct (portal (this s)) eqn:E.
  - now destruct (hide_fields s _ E).
  - now rewrite hide_unmounted.
Qed.

Lemma fire_cleanup_listeners parse (l : list (Z * TimerTask)) : forall (y : State),
  Forall (fun t => snd t = HideCleanup) l ->
  keydownListeners (world y) = [] ->
  keydownListeners (world (fold_left (fire parse) l y)) = [].
Proof.
  induction l as [|[t task] l IH]; intros y Hl Hy; [exact Hy|].
  inversion Hl as [|? ? Ht Hl']; subst. simpl in Ht. subst task.
  simpl. apply IH; [assumption|]. unfold fire. simpl. apply hideCleanup_listeners.
Qed.

Lemma Forall_filter_sub {A} (P : A -> Prop) (f : A -> bool) (l : list A) :
  Forall P l -> Forall P (List.filter f l).
Proof.
  induction 1 as [|x l Hx Hl IH]; simpl; [constructor|].
  destruct (f x); [constructor; assumption | assumption].
Qed.

Lemma destroy_idempotent s : destroy (destroy s) = destroy s.
Proof.
  rewrite (destroy_unfold (destroy s)), hide_unmounted by reflexivity.
  rewrite destroy_unfold. reflexivity.
Qed.

Lemma destroy_twice_clears_listeners parse s (ms : Z) :
  idleWithoutPortal s -> timersWithinDelay s -> (ANIMATION_MS <= ms)%Z ->
  keydownListeners (world (advance parse ms (destroy (destroy s)))) = [].
Proof.
  intros Hidle Hbound Hms. rewrite destroy_idempotent, destroy_unfold, advance_unfold.
  cbn [world onThis onWorld keydownListeners set_now].
  destruct (portal (this s)) as [p|] eqn:Hp.
  - destruct (hide_fields s p Hp) as (_ & _ & Htm & Hn & _).
    rewrite (insertTimer_back ((now (world s) + ANIMATION_MS)%Z, HideCleanup) _ Hbound) in Htm.
    rewrite Htm, Hn.
    destruct (filter_due_all (now (world s) + ms)
                (timers (world s) ++ [((now (world s) + ANIMATION_MS)%Z, HideCleanup)]))
      as [-> _].
    { apply Forall_app. split.
      - eapply Forall_impl; [exact Hbound|]. simpl. intros; lia.
      - constructor; [simpl; lia | constructor]. }
    rewrite fold_fire_last. unfold fire at 1. cbn [snd runTimer].
    apply hideCleanup_listeners.
  - rewrite (hide_unmounted s Hp). destruct (Hidle Hp) as [Hk Ht].
    apply fire_cleanup_listeners.
    + now apply Forall_filter_sub.
    + exact Hk.
Qed.

(** ** [updateContent] *)

Lemma updateContent_mounted parse c s b :
  body (this s) = Some b ->
  updateContent parse c s =
  onThis (set_focusableElements (getFocusableElements (contentReplaced parse b c s)))
    (contentReplaced parse b c s).
Proof. intros Hb. unfold updateContent. rewrite Hb. destruct c; reflexivity. Qed.

Lemma setInnerHTML_empty parse b d :
  Dom.setInnerHTML parse b "" d = alter (Dom.with_childNodes []) b d.
Proof.
  unfold Dom.setInnerHTML. simpl.
  rewrite list_alter_alter_eq. apply list_alter_ext; [|reflexivity].
  intros e _. reflexivity.
Qed.

Lemma childrenOf_cleared b d : Dom.childrenOf (alter (Dom.with_childNodes []) b d) b = [].
Proof.
  unfold Dom.childrenOf. rewrite list_lookup_alter_eq. destruct (d !! b); reflexivity.
Qed.

Lemma childrenOf_appendAll b els : forall d,
  b < length d ->
  Dom.childrenOf (appendAll b els d) b = fold_left moveLast els (Dom.childrenOf d b).
Proof.
  induction els as [|c els IH]; intros d Hb; [reflexivity|]. simpl.
  rewrite IH by (now rewrite DomFacts.length_appendChild).
  now rewrite childrenOf_appendChild.
Qed.

Lemma moveLast_distinct els : forall kids,
  List.NoDup (kids ++ els) -> fold_left moveLast els kids = kids ++ els.
Proof.
  induction els as [|c els IH]; intros kids H; simpl.
  - now rewrite app_nil_r.
  - unfold moveLast at 2. rewrite DomFacts.without_notin.
    + rewrite IH; rewrite <- app_assoc; [reflexivity | exact H].
    + apply NoDup_remove_2 in H. intros Hin. apply H. apply in_or_app. now left.
Qed.

Lemma buildAll_count ms : forall d, length (fst (Dom.buildAll ms d)) = length ms.
Proof.
  induction ms as [|k r IH]; intros d; [reflexivity|]. simpl.
  destruct (Dom.build k d) as [i d']. specialize (IH d').
  destruct (Dom.buildAll r d') as [rest d'']. simpl in *. now rewrite IH.
Qed.

Lemma childrenOf_setInnerHTML parse b markup d :
  b < length d ->
  Forall (fun i => length d <= i) (Dom.childrenOf (Dom.setInnerHTML parse b markup d) b) /\
  length (Dom.childrenOf (Dom.setInnerHTML parse b markup d) b)
    = length (if String.eqb markup "" then [] else parse markup).
Proof.
  intros Hb. unfold Dom.setInnerHTML.
  set (ms := if String.eqb markup "" then [] else parse markup).
  pose proof (DomFacts.buildAll_extends ms (alter (Dom.with_childNodes []) b d)) as [[Hl _] Hids].
  pose proof (buildAll_count ms (alter (Dom.with_childNodes []) b d)) as Hc.
  destruct (Dom.buildAll ms (alter (Dom.with_childNodes []) b d)) as [ids d1].
  simpl in *. rewrite length_alter in Hl, Hids.
  unfold Dom.childrenOf. rewrite list_lookup_alter_eq.
  destruct (lookup_lt_is_Some_2 d1 b) as [e ->]; [lia|].
  simpl. split; assumption.
Qed.

(** A [show()] on a controller that has its portal creates no element and
    leaves the portal exactly once among the children of [document.body]. *)
Lemma show_again_no_duplicate parse s p :
  dom (world s) <> [] ->
  portal (this s) = Some p ->
  portal (this (show parse s)) = Some p /\
  length (dom (world (show parse s))) = length (dom (world s)) /\
  count_occ Nat.eq_dec (bodyChildren (show parse s)) p = 1.
Proof.
  intros Hd Hp.
  assert (Hm : mount parse s = s) by (unfold mount; now rewrite Hp).
  assert (Hp' : portal (this (show parse s)) = Some p).
  { rewrite show_portal, Hp. reflexivity. }
  split; [exact Hp'|]. split.
  - rewrite show_dom, Hm, Hp. apply DomFacts.length_appendChild.
  - rewrite (show_attached parse s p Hd Hp'), Hm, count_occ_app.
    rewrite (proj1 (count_occ_not_In Nat.eq_dec _ _) (DomFacts.not_in_without p _)).
    simpl. destruct (Nat.eq_dec p p); [reflexivity | congruence].
Qed.

(** * States a controller reaches *)

Lemma sameSkeleton_refl s : sameSkeleton s s.
Proof. repeat split. Qed.

Lemma sameSkeleton_trans s1 s2 s3 :
  sameSkeleton s1 s2 -> sameSkeleton s2 s3 -> sameSkeleton s1 s3.
Proof.
  intros (A1 & A2 & A3 & A4 & A5 & A6) (B1 & B2 & B3 & B4 & B5 & B6).
  repeat split; congruence.
Qed.

Lemma nonempty_length (d d' : list Element) : length d <= length d' -> d <> [] -> d' <> [].
Proof. intros Hl Hd ->. destruct d; [congruence | simpl in Hl; lia]. Qed.

Lemma consistent_skeleton s s' : sameSkeleton s s' -> consistent s -> consistent s'.
Proof.
  intros (Ht & Hk & Htm & Hn & Hl & _) ((I1 & I2 & I3 & I4 & I6) & I5).
  unfold consistent, settled, timersWithinDelay, idleWithoutPortal in *.
  rewrite Ht, Hk, Htm, Hn, Hl.
  repeat split; try assumption.
  - apply (nonempty_length (dom (world s))); [lia | assumption].
  - now apply I6.
  - now apply I6.
Qed.

Lemma callOnClose_skeleton s : sameSkeleton s (callOnClose s).
Proof. repeat split. Qed.

Lemma focus_skeleton el s : sameSkeleton s (focus el s).
Proof. repeat split. Qed.

Lemma runKeyHandler_skeleton h event s : sameSkeleton s (fst (runKeyHandler h event s)).
Proof.
  destruct h; simpl.
  - unfold handleEscapeKey.
    destruct (String.eqb (key event) "Escape" && notFalse (closeOnEscape (props (this s))));
      simpl; [apply callOnClose_skeleton | apply sameSkeleton_refl].
  - unfold trapFocus. destruct (negb (String.eqb (key event) "Tab")); [apply sameSkeleton_refl|].
    destruct (focusableElements (this s)) as [|f r]; [apply sameSkeleton_refl|].
    destruct (shiftKey event).
    + destruct (isActive f s); [apply focus_skeleton | apply sameSkeleton_refl].
    + destruct (isActive _ s); [apply focus_skeleton | apply sameSkeleton_refl].
Qed.

Lemma keydown_skeleton event s : sameSkeleton s (fst (keydown event s)).
Proof.
  rewrite keydown_unfold.
  assert (H : forall l acc, sameSkeleton s (fst acc) ->
                sameSkeleton s (fst (fold_left (keydownStep event) l acc))).
  { induction l as [|h l IH]; intros acc Hacc; [exact Hacc|]. simpl. apply IH.
    unfold keydownStep.
    pose proof (runKeyHandler_skeleton h event (fst acc)) as Hh.
    destruct (runKeyHandler h event (fst acc)) as [x p]. simpl in *.
    eapply sameSkeleton_trans; eassumption. }
  apply H. apply sameSkeleton_refl.
Qed.

Lemma runClickHandler_skeleton h target s : sameSkeleton s (runClickHandler h target s).
Proof.
  destruct h; simpl; [|apply callOnClose_skeleton].
  unfold handleBackdropClick.
  destruct (isBackdrop target s); [apply callOnClose_skeleton | apply sameSkeleton_refl].
Qed.

Lemma click_skeleton target s : sameSkeleton s (click target s).
Proof.
  unfold click.
  generalize (target :: Dom.ancestors (length (dom (world s))) (dom (world s)) target).
  intros path.
  assert (Hin : forall l x, sameSkeleton s x ->
                  sameSkeleton s (fold_left (fun s h => runClickHandler h target s) l x)).
  { induction l as [|h l IH]; intros x Hx; [exact Hx|]. simpl. apply IH.
    eapply sameSkeleton_trans; [exact Hx | apply runClickHandler_skeleton]. }
  assert (H : forall p x, sameSkeleton s x ->
                sameSkeleton s
                  (fold_left (fun s node =>
                                fold_left (fun s h => runClickHandler h target s)
                                  (listenersAt node s) s) p x)).
  { induction p as [|n p IH]; intros x Hx; [exact Hx|]. simpl. apply IH.
    now apply Hin. }
  apply H. apply sameSkeleton_refl.
Qed.

Lemma addOpenClass_skeleton s : sameSkeleton s (addOpenClass s).
Proof.
  unfold addOpenClass. destruct (portal (this s)); [|apply sameSkeleton_refl].
  repeat split.
  - simpl. apply DomFacts.length_classListAdd.
  - change (Dom.childrenOf (Dom.classListAdd n "modal-portal--open" (dom (world s))) Dom.BODY
            = Dom.childrenOf (dom (world s)) Dom.BODY).
    unfold Dom.classListAdd, Dom.childrenOf.
    rewrite list_lookup_alter.
    destruct (decide (n = Dom.BODY)) as [->|]; [|reflexivity].
    destruct (dom (world s) !! Dom.BODY) as [e|]; [|reflexivity].
    simpl. now destruct (Dom.memStr _ (classList e)).
Qed.

Lemma animationFrame_skeleton s : sameSkeleton s (animationFrame s).
Proof.
  unfold animationFrame. generalize (frames (world s)). intros l.
  assert (H : forall l x, sameSkeleton s x ->
                sameSkeleton s (fold_left (fun s task => runFrame task s) l x)).
  { clear l. induction l as [|[] l IH]; intros x Hx; [exact Hx|]. simpl. apply IH.
    eapply sameSkeleton_trans; [exact Hx | apply addOpenClass_skeleton]. }
  apply H. repeat split.
Qed.

Lemma show_length parse s :
  length (dom (world s)) <= length (dom (world (show parse s))).
Proof.
  rewrite show_dom. destruct (mount_fields parse s) as (_ & _ & _ & _ & Hl).
  destruct (portal (this (mount parse s))); [rewrite DomFacts.length_appendChild|]; exact Hl.
Qed.

Lemma show_consistent parse s : settled s -> consistent (show parse s).
Proof.
  intros (I1 & I2 & I3 & I4 & I6).
  destruct (show_host parse s) as (_ & Hn & Ht & _).
  pose proof (show_portal parse s) as Hp.
  split; [|intros _; rewrite Hp; discriminate].
  split; [|split; [|split; [|split]]].
  - rewrite show_keydown. apply NoDup_withListener.
    destruct (notFalse _); [apply NoDup_withListener|]; exact I1.
  - unfold timersWithinDelay. rewrite Ht, Hn. exact I2.
  - apply (nonempty_length (dom (world s))); [apply show_length | exact I3].
  - intros p Hp'. now apply (show_portal_in_heap parse s p I4).
  - intros Hnone. rewrite Hp in Hnone. discriminate.
Qed.

Lemma Forall_insertTimer (P : Z * TimerTask -> Prop) t q :
  P t -> Forall P q -> Forall P (insertTimer t q).
Proof.
  intros Ht. induction 1 as [|x q Hx Hq IH]; simpl; [constructor; [assumption|constructor]|].
  destruct (fst x <=? fst t)%Z; constructor; try assumption.
  constructor; assumption.
Qed.

Lemma hide_consistent s : consistent s -> consistent (hide s).
Proof.
  intros Hs. destruct (portal (this s)) as [p|] eqn:Hp; [|now rewrite hide_unmounted].
  destruct Hs as ((I1 & I2 & I3 & I4 & I6) & I5).
  destruct (hide_fields s p Hp) as (Ht & Hd & Htm & Hn & Hk & _).
  unfold consistent, settled, timersWithinDelay, idleWithoutPortal.
  rewrite Ht, Hk, Htm, Hn, Hd, DomFacts.length_classListRemove.
  repeat split; try assumption.
  - apply Forall_insertTimer; [simpl; lia | exact I2].
  - apply (nonempty_length (dom (world s)));
      [now rewrite DomFacts.length_classListRemove | exact I3].
  - congruence.
  - congruence.
Qed.

Lemma setTimeout_consistent task s :
  portal (this s) <> None -> consistent s -> consistent (setTimeout task ANIMATION_MS s).
Proof.
  intros Hp ((I1 & I2 & I3 & I4 & I6) & I5).
  unfold consistent, settled, timersWithinDelay, idleWithoutPortal.
  cbn [setTimeout this world onWorld keydownListeners timers now dom set_timers].
  repeat split; try assumption.
  - apply Forall_insertTimer; [simpl; lia | exact I2].
  - congruence.
  - congruence.
Qed.

Lemma withNewProps_settled newProps s : settled s -> settled (withNewProps newProps s).
Proof. intros H. exact H. Qed.

Lemma updateProps_consistent parse newProps s :
  consistent s -> consistent (updateProps parse newProps s).
Proof.
  intros (Hs & I5). rewrite updateProps_cases.
  destruct (isOpen (props (this s))) eqn:Hwas;
    destruct (isOpen (spread (props (this s)) newProps)) eqn:Hnew; cbn [andb negb].
  - apply setTimeout_consistent.
    + rewrite hide_this. now apply I5.
    + apply hide_consistent. split; [exact Hs|]. intros _. now apply I5.
  - apply hide_consistent. split; [exact Hs|].
    cbn [withNewProps this onThis props set_props]. rewrite Hnew. discriminate.
  - apply show_consistent. exact Hs.
  - split; [exact Hs|]. cbn [withNewProps this onThis props set_props].
    rewrite Hnew. discriminate.
Qed.

Lemma contentReplaced_frame parse b c s :
  this (contentReplaced parse b c s) = this s /\
  keydownListeners (world (contentReplaced parse b c s)) = keydownListeners (world s) /\
  timers (world (contentReplaced parse b c s)) = timers (world s) /\
  now (world (contentReplaced parse b c s)) = now (world s) /\
  length (dom (world s)) <= length (dom (world (contentReplaced parse b c s))).
Proof.
  destruct c as [markup|el|els]; (split; [reflexivity|]); (split; [reflexivity|]);
    (split; [reflexivity|]); (split; [reflexivity|]);
    cbn [contentReplaced world onDom onWorld dom set_dom].
  - destruct (keeps_setInnerHTML 0 parse b markup
                (Dom.setInnerHTML parse b "" (dom (world s)))) as [H1 _]; [lia|].
    destruct (keeps_setInnerHTML 0 parse b "" (dom (world s))) as [H2 _]; [lia|]. lia.
  - rewrite DomFacts.length_appendChild.
    destruct (keeps_setInnerHTML 0 parse b "" (dom (world s))) as [H2 _]; [lia|]. lia.
  - destruct (keeps_appendAll 0 b els
                (Dom.setInnerHTML parse b "" (dom (world s)))) as [H1 _]; [lia|].
    destruct (keeps_setInnerHTML 0 parse b "" (dom (world s))) as [H2 _]; [lia|]. lia.
Qed.

Lemma updateContent_consistent parse c s :
  consistent s -> consistent (updateContent parse c s).
Proof.
  intros Hs. destruct (body (this s)) as [b|] eqn:Hb.
  2:{ unfold updateContent. now rewrite Hb. }
  rewrite (updateContent_mounted parse c s b Hb).
  destruct (contentReplaced_frame parse b c s) as (Ht & Hk & Htm & Hn & Hl).
  destruct Hs as ((I1 & I2 & I3 & I4 & I6) & I5).
  unfold consistent, settled, timersWithinDelay, idleWithoutPortal.
  cbn [this world onThis portal props set_focusableElements].
  rewrite Ht, Hk, Htm, Hn.
  repeat split; try assumption.
  - apply (nonempty_length (dom (world s))); assumption.
  - intros p Hp. specialize (I4 p Hp). lia.
  - now apply I6.
  - now apply I6.
Qed.

Lemma hideCleanup_length x :
  length (dom (world (hideCleanup x))) = length (dom (world x)).
Proof.
  rewrite hideCleanup_dom. destruct (portal (this x)); [|reflexivity].
  destruct (Dom.parentNode _ _); [apply DomFacts.length_removeChild | reflexivity].
Qed.

(** Firing due timers one after the other, for a queue whose remaining
    timers are [later]. *)
Lemma fire_fold_consistent parse (later : list (Z * TimerTask)) (l : list (Z * TimerTask)) :
  forall x,
    List.NoDup (keydownListeners (world x)) ->
    dom (world x) <> [] ->
    (forall p, portal (this x) = Some p -> p < length (dom (world x))) ->
    (isOpen (props (this x)) = true -> portal (this x) <> None) ->
    timers (world x) = later ->
    (portal (this x) = None ->
       keydownListeners (world x) = [] /\ Forall (fun t => snd t = HideCleanup) l) ->
    List.NoDup (keydownListeners (world (fold_left (fire parse) l x))) /\
    dom (world (fold_left (fire parse) l x)) <> [] /\
    (forall p, portal (this (fold_left (fire parse) l x)) = Some p ->
       p < length (dom (world (fold_left (fire parse) l x)))) /\
    (isOpen (props (this (fold_left (fire parse) l x))) = true ->
       portal (this (fold_left (fire parse) l x)) <> None) /\
    timers (world (fold_left (fire parse) l x)) = later /\
    (portal (this (fold_left (fire parse) l x)) = None ->
       keydownListeners (world (fold_left (fire parse) l x)) = [] /\
       portal (this x) = None).
Proof.
  induction l as [|[t task] l IH]; intros x I1 I3 I4 I5 Ht I6.
  - simpl. repeat split; try assumption. now apply I6.
  - simpl. set (x' := onWorld (fun w => set_now (Z.max (now w) t) w) x).
    assert (Hfire : fire parse x (t, task) = runTimer parse task x') by reflexivity.
    rewrite Hfire. destruct task; cbn [runTimer].
    + (* the cleanup of a [hide] *)
      destruct (hideCleanup_host x') as (_ & _ & _ & Htm & _).
      destruct (IH (hideCleanup x')) as (J1 & J3 & J4 & J5 & Jt & J6).
      * rewrite hideCleanup_listeners. constructor.
      * apply (nonempty_length (dom (world x))); [|exact I3].
        rewrite hideCleanup_length. apply Nat.le_refl.
      * rewrite hideCleanup_this, hideCleanup_length. exact I4.
      * rewrite hideCleanup_this. exact I5.
      * rewrite Htm. exact Ht.
      * rewrite hideCleanup_this, hideCleanup_listeners. intros Hnone.
        split; [reflexivity|]. destruct (I6 Hnone) as [_ HF].
        now inversion HF.
      * repeat split; try assumption; try (now apply J6).
        destruct (J6 H) as [_ Hn]. rewrite hideCleanup_this in Hn. exact Hn.
    + (* the deferred [show] *)
      assert (Hsome : portal (this x) <> None).
      { intros Hnone. destruct (I6 Hnone) as [_ HF]. inversion HF as [|? ? Hhd _]; subst.
        discriminate Hhd. }
      pose proof (show_portal parse x') as Hp.
      destruct (show_host parse x') as (_ & _ & Htm & _).
      destruct (IH (show parse x')) as (J1 & J3 & J4 & J5 & Jt & J6).
      * rewrite show_keydown. apply NoDup_withListener.
        destruct (notFalse _); [apply NoDup_withListener|]; exact I1.
      * apply (nonempty_length (dom (world x))); [apply (show_length parse x') | exact I3].
      * intros p Hp'. now apply (show_portal_in_heap parse x' p I4).
      * intros _. rewrite Hp. discriminate.
      * rewrite Htm. exact Ht.
      * intros Hnone. rewrite Hp in Hnone. discriminate.
      * repeat split; try assumption; try (now apply J6).
        destruct (J6 H) as [_ Hn]. rewrite Hp in Hn. discriminate.
Qed.

Lemma advance_consistent parse (ms : nat) s :
  consistent s -> consistent (advance parse (Z.of_nat ms) s).
Proof.
  intros ((I1 & I2 & I3 & I4 & I6) & I5). rewrite advance_unfold.
  set (deadline := (now (world s) + Z.of_nat ms)%Z).
  set (due := List.filter (fun x => (fst x <=? deadline)%Z) (timers (world s))).
  set (later := List.filter (fun x => negb (fst x <=? deadline)%Z) (timers (world s))).
  destruct (fire_fold_consistent parse later due (onWorld (set_timers later) s))
    as (J1 & J3 & J4 & J5 & Jt & J6); try assumption; try reflexivity.
  { intros Hnone. destruct (I6 Hnone) as [Hk HF]. split; [exact Hk|].
    now apply Forall_filter_sub. }
  set (y := fold_left (fire parse) due (onWorld (set_timers later) s)) in *.
  unfold consistent, settled, timersWithinDelay, idleWithoutPortal.
  cbn [this world onWorld keydownListeners timers now dom set_now].
  rewrite Jt. repeat split; try assumption.
  - apply Forall_filter_sub. eapply Forall_impl; [exact I2|].
    simpl. intros a Ha. subst deadline. lia.
  - now apply J6.
  - destruct (J6 H) as [_ Hn]. destruct (I6 Hn) as [_ HF].
    now apply Forall_filter_sub.
Qed.

Lemma perform_consistent parse s a : consistent s -> consistent (perform parse s a).
Proof.
  intros Hs. destruct a; cbn [perform].
  - apply show_consistent. apply Hs.
  - now apply hide_consistent.
  - now apply updateProps_consistent.
  - now apply updateContent_consistent.
  - now apply advance_consistent.
  - apply (consistent_skeleton s); [apply animationFrame_skeleton | exact Hs].
  - apply (consistent_skeleton s); [apply keydown_skeleton | exact Hs].
  - apply (consistent_skeleton s); [apply click_skeleton | exact Hs].
  - apply (consistent_skeleton s); [apply focus_skeleton | exact Hs].
Qed.

Lemma constructor_consistent parse p w : freshPage w -> consistent (constructor parse p w).
Proof.
  intros (Hd & Hk & Ht).
  assert (Hs : settled {| this := newModal p; world := w |}).
  { unfold settled, timersWithinDelay, idleWithoutPortal. simpl. rewrite Hk, Ht.
    repeat split; try constructor; try assumption. intros q Hq. discriminate Hq. }
  unfold constructor. destruct (isOpen p) eqn:Hp.
  - now apply show_consistent.
  - split; [exact Hs|]. simpl. rewrite Hp. discriminate.
Qed.

(** Every state that a controller built on a fresh page reaches through
    calls of [show], [hide], [updateProps] and [updateContent], through
    timers, frames and user input, is consistent: its keydown listeners
    are registered once, its timers are due within the animation delay,
    its portal is an element of the document, it has a portal whenever
    [isOpen] is true, and without a portal it has no listener and no
    deferred [show]. *)
Theorem reachable_consistent :
  forall (parse : string -> list Markup) (p : ModalProps) (w : World) (actions : list Action),
    freshPage w -> consistent (run parse actions (constructor parse p w)).
Proof.
  intros parse p w actions Hw. unfold run.
  generalize (constructor_consistent parse p w Hw).
  generalize (constructor parse p w). induction actions as [|a l IH]; intros s Hs.
  - exact Hs.
  - simpl. apply IH. now apply perform_consistent.
Qed.

(** ** Closing by Escape and by a click on the backdrop *)

Lemma handleEscapeKey_calls event s :
  handleEscapeKey event s =
  if String.eqb (key event) "Escape" && notFalse (closeOnEscape (props (this s)))
  then (callOnClose s, false) else (s, false).
Proof. reflexivity. Qed.

Lemma handleBackdropClick_calls target s :
  handleBackdropClick target s =
  match backdrop (this s) with
  | Some b => if Nat.eqb target b then callOnClose s else s
  | None => s
  end.
Proof.
  unfold handleBackdropClick, isBackdrop. destruct (backdrop (this s)); reflexivity.
Qed.

Lemma trap_ignores_escape event s : key event = "Escape" -> trapFocus event s = (s, false).
Proof. intros H. unfold trapFocus. now rewrite H. Qed.

Lemma keydown_escape_others event (l : list KeyHandler) (acc : State * bool) :
  key event = "Escape" -> ~ In HandleEscapeKey l ->
  fold_left (keydownStep event) l acc = acc.
Proof.
  intros Hk. revert acc. induction l as [|h l IH]; intros acc Hn; [reflexivity|].
  simpl. destruct h; [exfalso; apply Hn; now left|].
  unfold keydownStep at 2. simpl. rewrite (trap_ignores_escape _ _ Hk), orb_false_r.
  destruct acc as [x b]. simpl. apply IH. intros H. apply Hn. now right.
Qed.

Lemma keydown_escape_handler event (l : list KeyHandler) : forall (x : State) (b : bool),
  key event = "Escape" -> List.NoDup l -> In HandleEscapeKey l ->
  fold_left (keydownStep event) l (x, b) = (fst (handleEscapeKey event x), b).
Proof.
  induction l as [|h l IH]; intros x b Hk Hnd Hin; [destruct Hin|].
  inversion Hnd as [|h' l' Hh Hl]; subst. simpl. destruct h.
  - unfold keydownStep at 2. simpl.
    assert (Hp : snd (handleEscapeKey event x) = false).
    { rewrite handleEscapeKey_calls. now destruct (_ && _). }
    destruct (handleEscapeKey event x) as [x' p']. simpl in *. subst p'.
    rewrite orb_false_r. now apply keydown_escape_others.
  - unfold keydownStep at 2. simpl. rewrite (trap_ignores_escape _ _ Hk), orb_false_r.
    apply IH; try assumption. destruct Hin as [H|H]; [discriminate | exact H].
Qed.

(** An Escape keydown after [show()], on a controller whose Escape
    listener was not registered before: [onClose] is called once when
    [closeOnEscape] is not [false], and not at all when it is. *)
Lemma escape_after_show parse event s :
  key event = "Escape" ->
  List.NoDup (keydownListeners (world s)) ->
  ~ registered HandleEscapeKey s ->
  closeLog (world (fst (keydown event (show parse s)))) =
  if notFalse (closeOnEscape (props (this s)))
  then closeLog (world s) ++ [onClose (props (this s))]
  else closeLog (world s).
Proof.
  intros Hk Hnd Hno. rewrite keydown_unfold.
  destruct (show_host parse s) as (_ & _ & _ & _ & Hlog).
  destruct (show_this parse s) as (_ & _ & _ & _ & _ & _ & Hprops).
  destruct (mount_fields parse s) as (Hmp & _). rewrite Hmp in Hprops.
  pose proof (show_keydown parse s) as Hl.
  destruct (notFalse (closeOnEscape (props (this s)))) eqn:Hflag.
  - rewrite (keydown_escape_handler event _ (show parse s) false Hk).
    + rewrite handleEscapeKey_calls, Hk, Hprops, Hflag.
      change (String.eqb "Escape" "Escape" && true) with true.
      cbn [fst callOnClose world onWorld closeLog set_closeLog].
      now rewrite Hprops, Hlog.
    + rewrite Hl. now do 2 apply NoDup_withListener.
    + rewrite Hl. apply in_withListener. right. apply in_withListener. now left.
  - rewrite keydown_escape_others; [exact Hlog | exact Hk |].
    rewrite Hl, in_withListener. intros [H|H]; [discriminate | now apply Hno].
Qed.

(** * At most one portal in the document *)

Lemma shrinks_In d d' i :
  shrinks d d' -> In i (Dom.childrenOf d' Dom.BODY) -> In i (Dom.childrenOf d Dom.BODY).
Proof.
  intros H Hin. apply (count_occ_In Nat.eq_dec). apply (count_occ_In Nat.eq_dec) in Hin.
  specialize (H i). lia.
Qed.

Lemma onePortal_shrinks n0 s s' :
  portal (this s') = portal (this s) -> body (this s') = body (this s) ->
  shrinks (dom (world s)) (dom (world s')) ->
  length (dom (world s)) <= length (dom (world s')) ->
  onePortal n0 s -> onePortal n0 s'.
Proof.
  intros Hp Hb Hs Hl (K1 & K2 & K3 & K4 & K5).
  unfold onePortal. rewrite Hp, Hb.
  split; [|split; [|split; [exact K3|split]]].
  - intros i Hi. apply K1. now apply (shrinks_In _ _ i Hs).
  - intros p Hq. specialize (K2 p Hq). specialize (Hs p). unfold bodyChildren in *. lia.
  - now apply (nonempty_length (dom (world s))).
  - lia.
Qed.

Lemma onePortal_skeleton n0 s s' : sameSkeleton s s' -> onePortal n0 s -> onePortal n0 s'.
Proof.
  intros (Ht & _ & _ & _ & Hl & Hb). apply onePortal_shrinks.
  - now rewrite Ht.
  - now rewrite Ht.
  - apply shrinks_same. exact Hb.
  - lia.
Qed.

Lemma mount_onePortal parse n0 s : onePortal n0 s -> onePortal n0 (mount parse s).
Proof.
  intros K. pose proof (mount_portal parse s) as Hm. unfold mount in *.
  destruct (portal (this s)) as [p|] eqn:Hp; [exact K|].
  destruct K as (K1 & K2 & K3 & K4 & K5).
  pose proof (createElement_builds parse s K4) as B.
  revert Hm B. generalize (createElement parse s). intros y Hm (Hk & Hl & Hs & Hb).
  assert (Hnone : forall i, In i (bodyChildren y) -> n0 <= i -> False).
  { intros i Hi Hn. apply (shrinks_In _ _ i Hs) in Hi. specialize (K1 i Hi Hn). congruence. }
  split; [|split; [|split; [|split]]].
  - intros i Hi Hn. destruct (Hnone i Hi Hn).
  - intros q Hq. rewrite Hm in Hq. injection Hq as <-.
    rewrite (proj1 (count_occ_not_In Nat.eq_dec _ _)); [lia|].
    intros Hin. now apply (Hnone _ Hin).
  - intros b Hbody. destruct (Hb b Hbody) as [Hold | Hge]; [now apply K3|].
    unfold Dom.BODY. lia.
  - apply (nonempty_length (dom (world s))); [exact Hl | exact K4].
  - lia.
Qed.

Lemma show_onePortal parse n0 s : onePortal n0 s -> onePortal n0 (show parse s).
Proof.
  intros K. pose proof (mount_onePortal parse n0 s K) as (M1 & M2 & M3 & M4 & M5).
  destruct K as (_ & _ & _ & K4 & K5).
  destruct (show_this parse s) as (Ep & _ & _ & _ & Eb & _).
  pose proof (show_length parse s) as Hl.
  destruct (portal (this (show parse s))) as [p|] eqn:Hp.
  2:{ rewrite show_portal in Hp. discriminate. }
  pose proof (show_attached parse s p K4 Hp) as Ha.
  unfold onePortal. rewrite Hp, Eb, Ha.
  split; [|split; [|split; [exact M3|split]]].
  - intros i Hi Hn. apply in_app_or in Hi. destruct Hi as [Hi | [<- | []]]; [|reflexivity].
    apply DomFacts.in_without in Hi. destruct Hi as [Hi _]. rewrite Ep. now apply M1.
  - intros q Hq. injection Hq as <-. rewrite count_occ_app.
    rewrite (proj1 (count_occ_not_In Nat.eq_dec _ _) (DomFacts.not_in_without p _)).
    simpl. destruct (Nat.eq_dec p p); lia.
  - now apply (nonempty_length (dom (world s))).
  - lia.
Qed.

Lemma hide_onePortal n0 s : onePortal n0 s -> onePortal n0 (hide s).
Proof.
  destruct (portal (this s)) as [p|] eqn:Hp; [|now rewrite hide_unmounted].
  destruct (hide_fields s p Hp) as (Ht & Hd & _).
  apply onePortal_shrinks.
  - now rewrite Ht.
  - now rewrite Ht.
  - rewrite Hd. apply shrinks_same. apply childrenOf_classListRemove.
  - rewrite Hd, DomFacts.length_classListRemove. apply Nat.le_refl.
Qed.

Lemma hideCleanup_onePortal n0 s : onePortal n0 s -> onePortal n0 (hideCleanup s).
Proof.
  apply onePortal_shrinks.
  - now rewrite hideCleanup_this.
  - now rewrite hideCleanup_this.
  - rewrite hideCleanup_dom. destruct (portal (this s)); [|apply shrinks_refl].
    destruct (Dom.parentNode _ _); [|apply shrinks_refl].
    intros i. rewrite childrenOf_removeChild. apply count_without.
  - rewrite hideCleanup_length. apply Nat.le_refl.
Qed.

Lemma onePortal_host n0 (f : World -> World) s :
  (forall w, dom (f w) = dom w) -> onePortal n0 s -> onePortal n0 (onWorld f s).
Proof.
  intros Hf. apply onePortal_shrinks; try reflexivity; simpl; rewrite Hf.
  - apply shrinks_refl.
  - apply Nat.le_refl.
Qed.

Lemma contentReplaced_gentle parse b c s :
  b <> Dom.BODY -> dom (world s) <> [] ->
  length (dom (world s)) <= length (dom (world (contentReplaced parse b c s))) /\
  shrinks (dom (world s)) (dom (world (contentReplaced parse b c s))).
Proof.
  intros Hb Hd.
  assert (H1 : 1 <= length (dom (world s))).
  { destruct (dom (world s)); [congruence | simpl; lia]. }
  destruct (gentle_setInnerHTML 1 parse b "" Hb (dom (world s))) as [Al As]; [lia | exact H1 |].
  assert (G : forall f, gentle 1 f ->
            length (dom (world s)) <= length (f (Dom.setInnerHTML parse b "" (dom (world s)))) /\
            shrinks (dom (world s)) (f (Dom.setInnerHTML parse b "" (dom (world s))))).
  { intros f Hf. destruct (Hf (Dom.setInnerHTML parse b "" (dom (world s)))) as [Fl Fs];
      [lia | lia |]. split; [lia | eapply shrinks_trans; eassumption]. }
  destruct c as [markup|el|els]; cbn [contentReplaced world onDom onWorld dom set_dom]; apply G.
  - now apply gentle_setInnerHTML.
  - now apply gentle_appendChild.
  - now apply gentle_appendAll.
Qed.

Lemma updateContent_onePortal parse n0 c s :
  onePortal n0 s -> onePortal n0 (updateContent parse c s).
Proof.
  intros K. destruct (body (this s)) as [b|] eqn:Hb.
  2:{ unfold updateContent. now rewrite Hb. }
  rewrite (updateContent_mounted parse c s b Hb).
  destruct (contentReplaced_frame parse b c s) as (Ht & _).
  destruct (contentReplaced_gentle parse b c s) as [Hl Hs].
  { apply K. exact Hb. }
  { apply K. }
  revert K. apply onePortal_shrinks.
  - cbn [this onThis portal set_focusableElements]. now rewrite Ht.
  - cbn [this onThis body set_focusableElements]. now rewrite Ht.
  - exact Hs.
  - exact Hl.
Qed.

Lemma updateProps_onePortal parse n0 newProps s :
  onePortal n0 s -> onePortal n0 (updateProps parse newProps s).
Proof.
  intros K. assert (K' : onePortal n0 (withNewProps newProps s)) by exact K.
  rewrite updateProps_cases.
  destruct (isOpen (props (this s))); destruct (isOpen (spread (props (this s)) newProps));
    cbn [andb negb].
  - apply onePortal_host; [reflexivity | now apply hide_onePortal].
  - now apply hide_onePortal.
  - now apply show_onePortal.
  - exact K'.
Qed.

Lemma fire_onePortal parse n0 s x : onePortal n0 s -> onePortal n0 (fire parse s x).
Proof.
  intros K. unfold fire.
  assert (K' : onePortal n0 (onWorld (fun w => set_now (Z.max (now w) (fst x)) w) s)).
  { apply onePortal_host; [reflexivity | exact K]. }
  destruct (snd x); cbn [runTimer];
    [now apply hideCleanup_onePortal | now apply show_onePortal].
Qed.

Lemma advance_onePortal parse n0 ms s :
  onePortal n0 s -> onePortal n0 (advance parse ms s).
Proof.
  intros K. rewrite advance_unfold. apply onePortal_host; [reflexivity|].
  assert (H : forall l y, onePortal n0 y -> onePortal n0 (fold_left (fire parse) l y)).
  { induction l as [|x l IH]; intros y Hy; [exact Hy|]. simpl. apply IH.
    now apply fire_onePortal. }
  apply H. apply onePortal_host; [reflexivity | exact K].
Qed.

Lemma perform_onePortal parse n0 s a : onePortal n0 s -> onePortal n0 (perform parse s a).
Proof.
  intros K. destruct a; cbn [perform].
  - now apply show_onePortal.
  - now apply hide_onePortal.
  - now apply updateProps_onePortal.
  - now apply updateContent_onePortal.
  - now apply advance_onePortal.
  - apply (onePortal_skeleton n0 s); [apply animationFrame_skeleton | exact K].
  - apply (onePortal_skeleton n0 s); [apply keydown_skeleton | exact K].
  - apply (onePortal_skeleton n0 s); [apply click_skeleton | exact K].
  - apply (onePortal_skeleton n0 s); [apply focus_skeleton | exact K].
Qed.

Lemma constructor_onePortal parse p w :
  freshPage w -> childrenInHeap w ->
  onePortal (length (dom w)) (constructor parse p w).
Proof.
  intros (Hd & _ & _) Hw.
  assert (K : onePortal (length (dom w)) {| this := newModal p; world := w |}).
  { split; [|split; [|split; [|split]]]; simpl.
    - intros i Hi Hn. specialize (Hw i Hi). lia.
    - intros q Hq. discriminate Hq.
    - intros b Hb. discriminate Hb.
    - exact Hd.
    - apply Nat.le_refl. }
  unfold constructor. destruct (isOpen p); [now apply show_onePortal | exact K].
Qed.

(** On a page whose body lists elements of the document, whatever a caller,
    the user and the event loop do to a controller that is not destroyed:
    of the elements created since the controller was constructed, only its
    portal is a child of [document.body], and it is so at most once. *)
Theorem one_portal_unless_destroyed :
  forall (parse : string -> list Markup) (p : ModalProps) (w : World) (actions : list Action),
    freshPage w -> childrenInHeap w ->
    onePortal (length (dom w)) (run parse actions (constructor parse p w)).
Proof.
  intros parse p w actions Hw Hc. unfold run.
  generalize (constructor_onePortal parse p w Hw Hc).
  generalize (constructor parse p w). induction actions as [|a l IH]; intros s Hs.
  - exact Hs.
  - simpl. apply IH. now apply perform_onePortal.
Qed.

(** The pages of the scenarios are such pages. *)
Lemma page_fresh n : freshPage (page n) /\ childrenInHeap (page n).
Proof.
  split; [repeat split; discriminate|].
  intros i Hi. unfold page, Dom.childrenOf in *. simpl in *.
  apply in_seq in Hi. rewrite repeat_length. lia.
Qed.

(** ** The claims over the states a controller reaches *)

(** After any run on a fresh page, [destroy(); destroy()] and the animation
    delay leave no keydown listener on the document. *)
Corollary destroy_after_any_run parse p w actions (ms : Z) :
  freshPage w -> (ANIMATION_MS <= ms)%Z ->
  keydownListeners
    (world (advance parse ms (destroy (destroy (run parse actions (constructor parse p w))))))
  = [].
Proof.
  intros Hw Hms.
  destruct (reachable_consistent parse p w actions Hw) as ((_ & I2 & _ & _ & I6) & _).
  now apply destroy_twice_clears_listeners.
Qed.

(** After any run on a fresh page, an open modal (its focus trap is
    registered) with the focus on its last focusable element answers Tab
    by focusing the first one. *)
Corollary tab_wraps_after_any_run parse p w actions first rest :
  freshPage w ->
  let s := run parse actions (constructor parse p w) in
  registered TrapFocus s ->
  focusableElements (this s) = first :: rest ->
  activeElement (world s) = Some (List.last (first :: rest) first) ->
  keydown (tab false) s = (focus first s, true).
Proof.
  intros Hw s.
  destruct (reachable_consistent parse p w actions Hw) as ((I1 & _) & _).
  fold s in I1. clearbody s. intros Hreg Hf Ha.
  rewrite keydown_unfold, (keydown_tab_trap (tab false) _ s false eq_refl I1 Hreg).
  unfold trapFocus. cbn [key tab shiftKey String.eqb Ascii.eqb Bool.eqb negb orb].
  rewrite Hf. apply isActive_true in Ha. now rewrite Ha.
Qed.

(** ** The click listener of the backdrop *)

Lemma backdropCreated_length s :
  length (dom (world (backdropCreated s))) = S (S (length (dom (world s)))).
Proof.
  unfold backdropCreated. cbv zeta.
  destruct (notFalse _); cbn [world onDom onWorld onThis dom set_dom newElement snd fst];
    rewrite ?DomFacts.length_addClickListener, DomFacts.length_setClassName;
    unfold Dom.createElement; cbn [snd]; rewrite length_app, portalCreated_dom,
      DomFacts.length_setClassName, length_app; cbn [length]; lia.
Qed.

Lemma createElement_grows_from_backdrop parse s :
  grows (S (S (length (dom (world s))))) (backdropCreated s) (createElement parse s).
Proof.
  assert (G0 : grows (S (S (length (dom (world s))))) (backdropCreated s) (backdropCreated s)).
  { apply grows_refl. rewrite backdropCreated_length. lia. }
  unfold createElement.
  do 2 lazymatch goal with
  | |- grows ?k ?b (let '(id, x) := ?r in @?f id x) =>
      apply (grows_open k b r f); cbv beta
  end.
  repeat first
    [ lazymatch goal with
      | |- grows ?k ?b (let '(id, x) := createHeader ?p ?s in @?f id x) =>
          apply (grows_call k b (createHeader p s) f);
          [apply createHeader_grows | intros ? ? ? ?]
      | |- grows ?k ?b (let '(id, x) := createBody ?p ?s in @?f id x) =>
          apply (grows_call k b (createBody p s) f);
          [apply createBody_grows | intros ? ? ? ?]
      | |- grows _ _ (if notFalse (closeOnBackdropClick _) then _ else _) => exact G0
      end
    | grow ].
Qed.

(** [createElement] gives the backdrop its click listener exactly when
    [closeOnBackdropClick] is not [false] at that moment. *)
Lemma createElement_backdrop_listener parse s :
  clickListeners <$> dom (world (createElement parse s)) !! S (length (dom (world s))) =
  Some (if notFalse (closeOnBackdropClick (props (this s)))
        then [HandleBackdropClick] else []).
Proof.
  destruct (createElement_grows_from_backdrop parse s) as (_ & _ & _ & (_ & Hd)).
  destruct (Hd (S (length (dom (world s))))) as [_ ->]; [lia|].
  unfold backdropCreated. cbv zeta.
  change (props (this (onDom (Dom.setClassName (fst (newElement "div" (portalCreated s)))
                                ["modal-backdrop"])
                         (onThis (set_backdrop (Some (fst (newElement "div" (portalCreated s)))))
                            (snd (newElement "div" (portalCreated s)))))))
    with (props (this s)).
  assert (Hb : fst (newElement "div" (portalCreated s)) = S (length (dom (world s)))).
  { cbn [newElement fst Dom.createElement]. rewrite portalCreated_dom,
      DomFacts.length_setClassName, length_app. cbn [length]. lia. }
  assert (Hl : length (dom (world (portalCreated s))) = S (length (dom (world s)))).
  { rewrite portalCreated_dom, DomFacts.length_setClassName, length_app. cbn [length]. lia. }
  destruct (notFalse (closeOnBackdropClick (props (this s))));
    cbn [world onDom onWorld onThis dom set_dom newElement snd]; rewrite Hb;
    unfold Dom.addClickListener, Dom.setClassName, Dom.createElement; cbn [snd];
    rewrite ?list_lookup_alter_eq, lookup_app_r by lia; rewrite Hl, Nat.sub_diag;
    reflexivity.
Qed.

(** * Timers that fall due *)

Lemma advance_due parse ms s (due later : list (Z * TimerTask)) :
  timers (world s) = due ++ later ->
  Forall (fun x => (fst x <= now (world s) + ms)%Z) due ->
  Forall (fun x => (now (world s) + ms < fst x)%Z) later ->
  advance parse ms s =
  onWorld (set_now (now (world s) + ms)%Z)
    (fold_left (fire parse) due (onWorld (set_timers later) s)).
Proof.
  intros Ht Hdue Hlater. rewrite advance_unfold, Ht, !List.filter_app.
  destruct (filter_due_all _ _ Hdue) as [-> ->].
  destruct (filter_due_none _ _ Hlater) as [-> ->].
  now rewrite app_nil_r.
Qed.

(** The cleanup of a [hide] as the only timer that falls due. *)
Lemma advance_cleanup parse ms x p t (later : list (Z * TimerTask)) :
  portal (this x) = Some p ->
  timers (world x) = (t, HideCleanup) :: later ->
  (t <= now (world x) + ms)%Z ->
  Forall (fun y => (now (world x) + ms < fst y)%Z) later ->
  this (advance parse ms x) = this x /\
  ~ In p (bodyChildren (advance parse ms x)) /\
  keydownListeners (world (advance parse ms x)) = [] /\
  bodyOverflow (world (advance parse ms x)) = "" /\
  timers (world (advance parse ms x)) = later.
Proof.
  intros Hp Ht Hdue Hlater.
  rewrite (advance_due parse ms x [(t, HideCleanup)] later Ht);
    [|constructor; [exact Hdue | constructor] | exact Hlater].
  cbn [fold_left]. unfold fire. cbn [snd fst runTimer].
  generalize (now (world x) + ms)%Z. intros deadline.
  assert (Hy : portal (this (onWorld (fun w => set_now (Z.max (now w) t) w)
                               (onWorld (set_timers later) x))) = Some p) by exact Hp.
  assert (Hth : this (onWorld (fun w => set_now (Z.max (now w) t) w)
                        (onWorld (set_timers later) x)) = this x) by reflexivity.
  assert (Htm : timers (world (onWorld (fun w => set_now (Z.max (now w) t) w)
                                 (onWorld (set_timers later) x))) = later) by reflexivity.
  revert Hy Hth Htm.
  generalize (onWorld (fun w => set_now (Z.max (now w) t) w) (onWorld (set_timers later) x)).
  intros y Hy Hth Htm.
  destruct (hideCleanup_host y) as (Hov & _ & _ & Htm' & _).
  pose proof (hideCleanup_detached y p Hy) as Hdet.
  pose proof (hideCleanup_listeners y) as Hl.
  pose proof (hideCleanup_this y) as Hthis.
  revert Hov Htm' Hdet Hl Hthis. generalize (hideCleanup y). intros z Hov Htm' Hdet Hl Hthis.
  split; [exact (eq_trans Hthis Hth)|]. split; [exact Hdet|].
  split; [exact Hl|]. split; [exact Hov|]. exact (eq_trans Htm' Htm).
Qed.

Lemma mount_mounted parse s p : portal (this s) = Some p -> mount parse s = s.
Proof. intros H. unfold mount. now rewrite H. Qed.

(** The cleanup of a [hide] and the deferred [show] of a re-render as the
    only timers that fall due. *)
Lemma advance_rerender parse ms x p t (later : list (Z * TimerTask)) :
  portal (this x) = Some p ->
  dom (world x) <> [] ->
  timers (world x) = (t, HideCleanup) :: (t, ShowAgain) :: later ->
  (t <= now (world x) + ms)%Z ->
  Forall (fun y => (now (world x) + ms < fst y)%Z) later ->
  portal (this (advance parse ms x)) = Some p /\
  props (this (advance parse ms x)) = props (this x) /\
  count_occ Nat.eq_dec (bodyChildren (advance parse ms x)) p = 1 /\
  keydownListeners (world (advance parse ms x)) =
    withListener TrapFocus
      (if notFalse (closeOnEscape (props (this x))) then [HandleEscapeKey] else []) /\
  bodyOverflow (world (advance parse ms x)) = "hidden" /\
  timers (world (advance parse ms x)) = later /\
  previousFocusedElement (this (advance parse ms x)) =
    match previousFocusedElement (this x) with
    | Some el => Some el
    | None => activeElement (world x)
    end /\
  frames (world (advance parse ms x)) = frames (world x) ++ [AddOpenClass] /\
  focusableElements (this (advance parse ms x)) = getFocusableElements (advance parse ms x) /\
  length (dom (world (advance parse ms x))) = length (dom (world x)).
Proof.
  intros Hp Hd Ht Hdue Hlater.
  rewrite (advance_due parse ms x [(t, HideCleanup); (t, ShowAgain)] later Ht);
    [|constructor; [exact Hdue | constructor; [exact Hdue | constructor]] | exact Hlater].
  cbn [fold_left]. unfold fire. cbn [snd fst runTimer].
  generalize (now (world x) + ms)%Z. intros deadline.
  (* the state in which the cleanup runs *)
  assert (Y : this (onWorld (fun w => set_now (Z.max (now w) t) w)
                      (onWorld (set_timers later) x)) = this x /\
              dom (world (onWorld (fun w => set_now (Z.max (now w) t) w)
                      (onWorld (set_timers later) x))) = dom (world x) /\
              activeElement (world (onWorld (fun w => set_now (Z.max (now w) t) w)
                      (onWorld (set_timers later) x))) = activeElement (world x) /\
              frames (world (onWorld (fun w => set_now (Z.max (now w) t) w)
                      (onWorld (set_timers later) x))) = frames (world x) /\
              timers (world (onWorld (fun w => set_now (Z.max (now w) t) w)
                      (onWorld (set_timers later) x))) = later)
    by (repeat split).
  revert Y.
  generalize (onWorld (fun w => set_now (Z.max (now w) t) w) (onWorld (set_timers later) x)).
  intros y (Y1 & Y2 & Y3 & Y4 & Y5).
  (* after the cleanup *)
  pose proof (hideCleanup_this y) as Z1.
  pose proof (hideCleanup_length y) as Z2.
  pose proof (hideCleanup_listeners y) as Z3.
  destruct (hideCleanup_host y) as (_ & Z4 & _ & Z5 & Z6 & _).
  revert Z1 Z2 Z3 Z4 Z5 Z6. generalize (hideCleanup y). intros z Z1 Z2 Z3 Z4 Z5 Z6.
  assert (Z' : this (onWorld (fun w => set_now (Z.max (now w) t) w) z) = this z /\
               length (dom (world (onWorld (fun w => set_now (Z.max (now w) t) w) z)))
                 = length (dom (world z)) /\
               keydownListeners (world (onWorld (fun w => set_now (Z.max (now w) t) w) z))
                 = keydownListeners (world z) /\
               activeElement (world (onWorld (fun w => set_now (Z.max (now w) t) w) z))
                 = activeElement (world z) /\
               timers (world (onWorld (fun w => set_now (Z.max (now w) t) w) z))
                 = timers (world z) /\
               frames (world (onWorld (fun w => set_now (Z.max (now w) t) w) z))
                 = frames (world z))
    by (repeat split).
  revert Z'. generalize (onWorld (fun w => set_now (Z.max (now w) t) w) z).
  intros v (V1 & V2 & V3 & V4 & V5 & V6).
  assert (Hpv : portal (this v) = Some p) by (rewrite V1, Z1, Y1; exact Hp).
  assert (Hdv : dom (world v) <> []).
  { apply (nonempty_length (dom (world x))); [|exact Hd]. rewrite V2, Z2, Y2. apply Nat.le_refl. }
  (* the deferred show *)
  destruct (show_again_no_duplicate parse v p Hdv Hpv) as (U1 & U2 & U3).
  destruct (show_this parse v) as (_ & _ & _ & _ & _ & _ & U4).
  pose proof (show_keydown parse v) as U5.
  destruct (show_host parse v) as (U6 & _ & U7 & U8 & _).
  pose proof (show_previous parse v) as U9.
  pose proof (show_focusable parse v) as U10.
  rewrite (mount_mounted parse v p Hpv) in U4, U9.
  revert U1 U2 U3 U4 U5 U6 U7 U8 U9 U10. generalize (show parse v).
  intros u U1 U2 U3 U4 U5 U6 U7 U8 U9 U10.
  change (bodyChildren (onWorld (set_now deadline) u)) with (bodyChildren u).
  change (getFocusableElements (onWorld (set_now deadline) u)) with (getFocusableElements u).
  cbn [this world onWorld keydownListeners bodyOverflow timers frames dom set_now].
  split; [exact U1|].
  split; [rewrite U4, V1, Z1, Y1; reflexivity|].
  split; [exact U3|].
  split. { rewrite U5, V1, Z1, Y1, V3, Z3. now destruct (notFalse _). }
  split; [exact U6|].
  split; [rewrite U7, V5, Z5; exact Y5|].
  split. { rewrite U9, V4, Z4, Y1, Y3. reflexivity. }
  split; [rewrite U8, V6, Z6, Y4; reflexivity|].
  split; [exact U10|].
  rewrite U2, V2, Z2, Y2. reflexivity.
Qed.

(** * Calling [hide] twice *)

Lemma filter_idem {A} (f : A -> bool) (l : list A) :
  List.filter f (List.filter f l) = List.filter f l.
Proof.
  induction l as [|a l IH]; [reflexivity|]. simpl.
  destruct (f a) eqn:E; simpl; [rewrite E; now f_equal | exact IH].
Qed.

Lemma classListRemove_idem p c d :
  Dom.classListRemove p c (Dom.classListRemove p c d) = Dom.classListRemove p c d.
Proof.
  unfold Dom.classListRemove. rewrite list_alter_alter_eq.
  apply list_alter_ext; [|reflexivity]. intros e _. unfold compose, Dom.with_classList. simpl.
  now rewrite filter_idem.
Qed.

Lemma removeChild_idem parent c d :
  Dom.removeChild parent c (Dom.removeChild parent c d) = Dom.removeChild parent c d.
Proof.
  unfold Dom.removeChild. rewrite list_alter_alter_eq.
  apply list_alter_ext; [|reflexivity]. intros e _. unfold compose, Dom.with_childNodes. simpl.
  unfold Dom.without. now rewrite filter_idem.
Qed.

Lemma hideCleanup_idempotent x : hideCleanup (hideCleanup x) = hideCleanup x.
Proof.
  open_state x. unfold hideCleanup. state_simpl.
  destruct po as [p|]; destruct pf as [f|]; state_simpl;
    try (destruct (Dom.parentNode d p) eqn:E; state_simpl;
         [destruct (Dom.parentNode (Dom.removeChild Dom.BODY p d) p); state_simpl | rewrite E]);
    unfold focus, onDom, onWorld, removeKeydownListener; state_simpl;
    rewrite ?removeChild_idem, !listeners_cleared; reflexivity.
Qed.

Lemma fire_cleanup_twice parse z t :
  fire parse (fire parse z (t, HideCleanup)) (t, HideCleanup) = fire parse z (t, HideCleanup).
Proof.
  unfold fire. cbn [snd fst runTimer].
  assert (H : forall y, (t <= now (world y))%Z ->
            onWorld (fun w => set_now (Z.max (now w) t) w) (hideCleanup y) = hideCleanup y).
  { intros y Hy. destruct (hideCleanup_host y) as (_ & _ & Hn & _).
    revert Hn. generalize (hideCleanup y). intros [m [d ov kl ae nw tm fr cl]] Hn.
    simpl in Hn. unfold onWorld, set_now. simpl. rewrite Hn, Z.max_l by lia. reflexivity. }
  rewrite H; [apply hideCleanup_idempotent|]. simpl. lia.
Qed.

Lemma insertTimer_twice_later (x : Z * TimerTask) (deadline : Z) : forall q,
  (fst x <= deadline)%Z ->
  List.filter (fun y => negb (fst y <=? deadline)%Z) (insertTimer x (insertTimer x q))
  = List.filter (fun y => negb (fst y <=? deadline)%Z) (insertTimer x q).
Proof.
  intros q Hx. assert (Ex : (fst x <=? deadline)%Z = true) by (now apply Z.leb_le).
  induction q as [|a r IH]; simpl.
  - rewrite Z.leb_refl. simpl. now rewrite Ex.
  - destruct (fst a <=? fst x)%Z eqn:E; simpl.
    + rewrite E. simpl. now rewrite IH.
    + rewrite Z.leb_refl. simpl. rewrite E. simpl. now rewrite Ex.
Qed.

Lemma insertTimer_twice_due {S : Type} (F : S -> Z * TimerTask -> S) (x : Z * TimerTask)
    (deadline : Z) :
  (fst x <= deadline)%Z ->
  (forall z, F (F z x) x = F z x) ->
  forall q y,
    fold_left F (List.filter (fun y => (fst y <=? deadline)%Z)
                   (insertTimer x (insertTimer x q))) y
    = fold_left F (List.filter (fun y => (fst y <=? deadline)%Z) (insertTimer x q)) y.
Proof.
  intros Hx HF. assert (Ex : (fst x <=? deadline)%Z = true) by (now apply Z.leb_le).
  induction q as [|a r IH]; intros y; simpl.
  - rewrite Z.leb_refl. simpl. rewrite Ex. simpl. now rewrite HF.
  - destruct (fst a <=? fst x)%Z eqn:E; simpl.
    + rewrite E. simpl. destruct (fst a <=? deadline)%Z; simpl; apply IH.
    + rewrite Z.leb_refl. simpl. rewrite E. simpl. rewrite Ex. simpl. now rewrite HF.
Qed.

(** * Elements are built once *)

Lemma sameElement_refl cls e : sameElement cls e e.
Proof. repeat split. Qed.

Lemma sameElement_trans cls e1 e2 e3 :
  sameElement cls e1 e2 -> sameElement cls e2 e3 -> sameElement cls e1 e3.
Proof.
  intros (A1 & A2 & A3 & A4 & A5) (B1 & B2 & B3 & B4 & B5).
  repeat split; try congruence. intros H. rewrite (B5 H). now apply A5.
Qed.

Lemma retained_refl p d : retained p d d.
Proof. split; [lia|]. intros j e H. exists e. split; [exact H | apply sameElement_refl]. Qed.

Lemma retained_trans p d1 d2 d3 : retained p d1 d2 -> retained p d2 d3 -> retained p d1 d3.
Proof.
  intros [L1 H1] [L2 H2]. split; [lia|]. intros j e He.
  destruct (H1 j e He) as (e2 & He2 & S2). destruct (H2 j e2 He2) as (e3 & He3 & S3).
  exists e3. split; [exact He3 | eapply sameElement_trans; eassumption].
Qed.

Lemma retained_alter p (f : Element -> Element) (i : nat) d :
  (forall e, sameElement (negb (Nat.eqb i p)) e (f e)) -> retained p d (alter f i d).
Proof.
  intros Hf. split; [now rewrite length_alter|]. intros j e He.
  rewrite list_lookup_alter. destruct (decide (i = j)) as [->|Hne].
  - rewrite He. simpl. eexists. split; [reflexivity | apply Hf].
  - exists e. split; [exact He | apply sameElement_refl].
Qed.

Lemma retained_fmap p (f : Element -> Element) d :
  (forall e, sameElement true e (f e)) -> retained p d (f <$> d).
Proof.
  intros Hf. split; [now rewrite length_fmap|]. intros j e He.
  rewrite list_lookup_fmap, He. simpl. eexists. split; [reflexivity|].
  destruct (Hf e) as (A1 & A2 & A3 & A4 & A5). repeat split; try assumption.
  intros _. now apply A5.
Qed.

Lemma retained_extends p d d' : extends d d' -> retained p d d'.
Proof.
  intros [Hl Hlook]. split; [exact Hl|]. intros j e He. exists e.
  split; [|apply sameElement_refl]. rewrite Hlook; [exact He|].
  now apply lookup_lt_Some in He.
Qed.

Lemma retained_children p (g : list nat -> list nat) i d :
  retained p d (alter (fun e => Dom.with_childNodes (g (childNodes e)) e) i d).
Proof. apply retained_alter. intros e. repeat split. Qed.

Lemma retained_appendChild p parent c d : retained p d (Dom.appendChild parent c d).
Proof.
  unfold Dom.appendChild. apply (retained_trans p d (Dom.detach c d)).
  - unfold Dom.detach. apply retained_fmap. intros e. repeat split.
  - apply (retained_children p (fun l => l ++ [c])).
Qed.

Lemma retained_appendAll p parent els : forall d, retained p d (appendAll parent els d).
Proof.
  induction els as [|c r IH]; intros d; [apply retained_refl|]. simpl.
  eapply retained_trans; [apply retained_appendChild | apply IH].
Qed.

Lemma retained_setInnerHTML p parse i str d : retained p d (Dom.setInnerHTML parse i str d).
Proof.
  unfold Dom.setInnerHTML.
  set (ms := if String.eqb str "" then [] else parse str).
  pose proof (DomFacts.buildAll_extends ms (alter (Dom.with_childNodes []) i d)) as [He _].
  destruct (Dom.buildAll ms (alter (Dom.with_childNodes []) i d)) as [ids d1]. simpl in He.
  eapply retained_trans; [apply (retained_children p (fun _ => []))|].
  eapply retained_trans; [apply retained_extends; exact He|].
  apply (retained_children p (fun _ => ids)).
Qed.

Lemma retained_portal_classes p (g : list string -> list string) d :
  retained p d (alter (fun e => Dom.with_classList (g (classList e)) e) p d).
Proof.
  apply retained_alter. intros e. rewrite Nat.eqb_refl. repeat split.
  intros H. discriminate H.
Qed.

Lemma retained_classListRemove p c d : retained p d (Dom.classListRemove p c d).
Proof. apply (retained_portal_classes p (List.filter _)). Qed.

Lemma retained_classListAdd p c d : retained p d (Dom.classListAdd p c d).
Proof.
  apply retained_alter. intros e. rewrite Nat.eqb_refl.
  destruct (Dom.memStr c (classList e)); repeat split; intros H; discriminate H.
Qed.

Lemma keeps_show parse p s0 s :
  keepsElements p s0 s -> keepsElements p s0 (show parse s).
Proof.
  intros [Hp Hr]. split; [rewrite show_portal, Hp; reflexivity|].
  rewrite show_dom, (mount_mounted parse s p Hp), Hp.
  eapply retained_trans; [exact Hr | apply retained_appendChild].
Qed.

Lemma keeps_hide p s0 s : keepsElements p s0 s -> keepsElements p s0 (hide s).
Proof.
  intros [Hp Hr]. destruct (hide_fields s p Hp) as (Ht & Hd & _).
  split; [now rewrite Ht|]. rewrite Hd.
  eapply retained_trans; [exact Hr | apply retained_classListRemove].
Qed.

Lemma keeps_hideCleanup p s0 s : keepsElements p s0 s -> keepsElements p s0 (hideCleanup s).
Proof.
  intros [Hp Hr]. split; [now rewrite hideCleanup_this|].
  rewrite hideCleanup_dom, Hp. destruct (Dom.parentNode _ _); [|exact Hr].
  eapply retained_trans; [exact Hr|]. apply (retained_children p (Dom.without p)).
Qed.

Lemma keeps_host p (f : World -> World) s0 s :
  (forall w, dom (f w) = dom w) -> keepsElements p s0 s -> keepsElements p s0 (onWorld f s).
Proof. intros Hf [Hp Hr]. split; [exact Hp|]. simpl. now rewrite Hf. Qed.

Lemma keeps_updateContent parse p c s0 s :
  keepsElements p s0 s -> keepsElements p s0 (updateContent parse c s).
Proof.
  intros [Hp Hr]. destruct (body (this s)) as [b|] eqn:Hb.
  2:{ unfold updateContent. rewrite Hb. now split. }
  rewrite (updateContent_mounted parse c s b Hb).
  destruct (contentReplaced_frame parse b c s) as (Ht & _).
  split. { cbn [this onThis portal set_focusableElements]. now rewrite Ht. }
  cbn [world onThis]. eapply retained_trans; [exact Hr|].
  destruct c as [markup|el|els]; cbn [contentReplaced world onDom onWorld dom set_dom].
  - eapply retained_trans; apply retained_setInnerHTML.
  - eapply retained_trans; [apply retained_setInnerHTML | apply retained_appendChild].
  - eapply retained_trans; [apply retained_setInnerHTML | apply retained_appendAll].
Qed.

Lemma keeps_updateProps parse p newProps s0 s :
  keepsElements p s0 s -> keepsElements p s0 (updateProps parse newProps s).
Proof.
  intros K. assert (K' : keepsElements p s0 (withNewProps newProps s)) by exact K.
  rewrite updateProps_cases.
  destruct (isOpen (props (this s))); destruct (isOpen (spread (props (this s)) newProps));
    cbn [andb negb].
  - apply keeps_host; [reflexivity | now apply keeps_hide].
  - now apply keeps_hide.
  - now apply keeps_show.
  - exact K'.
Qed.

Lemma keeps_advance parse p ms s0 s :
  keepsElements p s0 s -> keepsElements p s0 (advance parse ms s).
Proof.
  intros K. rewrite advance_unfold. apply keeps_host; [reflexivity|].
  assert (H : forall l y, keepsElements p s0 y -> keepsElements p s0 (fold_left (fire parse) l y)).
  { induction l as [|x l IH]; intros y Hy; [exact Hy|]. simpl. apply IH. unfold fire.
    assert (Hy' : keepsElements p s0 (onWorld (fun w => set_now (Z.max (now w) (fst x)) w) y))
      by (apply keeps_host; [reflexivity | exact Hy]).
    destruct (snd x); cbn [runTimer]; [now apply keeps_hideCleanup | now apply keeps_show]. }
  apply H. apply keeps_host; [reflexivity | exact K].
Qed.

Lemma keeps_animationFrame p s0 s :
  keepsElements p s0 s -> keepsElements p s0 (animationFrame s).
Proof.
  intros K. unfold animationFrame.
  assert (H : forall l y, keepsElements p s0 y ->
                keepsElements p s0 (fold_left (fun s task => runFrame task s) l y)).
  { induction l as [|[] l IH]; intros y [Hp Hr]; [now split|]. simpl. apply IH.
    split; [now rewrite addOpenClass_portal|]. rewrite (addOpenClass_dom y p Hp).
    eapply retained_trans; [exact Hr | apply retained_classListAdd]. }
  apply H. apply keeps_host; [reflexivity | exact K].
Qed.

Lemma sameDocument_refl s : sameDocument s s.
Proof. now split. Qed.

Lemma sameDocument_trans s1 s2 s3 :
  sameDocument s1 s2 -> sameDocument s2 s3 -> sameDocument s1 s3.
Proof. intros [A1 A2] [B1 B2]. split; congruence. Qed.

Lemma runKeyHandler_document h event s : sameDocument s (fst (runKeyHandler h event s)).
Proof.
  destruct h; simpl.
  - unfold handleEscapeKey.
    destruct (String.eqb (key event) "Escape" && notFalse (closeOnEscape (props (this s))));
      now split.
  - unfold trapFocus. destruct (negb (String.eqb (key event) "Tab")); [now split|].
    destruct (focusableElements (this s)) as [|f r]; [now split|].
    destruct (shiftKey event).
    + destruct (isActive f s); now split.
    + destruct (isActive _ s); now split.
Qed.

Lemma keydown_document event s : sameDocument s (fst (keydown event s)).
Proof.
  rewrite keydown_unfold.
  assert (H : forall l acc, sameDocument s (fst acc) ->
                sameDocument s (fst (fold_left (keydownStep event) l acc))).
  { induction l as [|h l IH]; intros acc Hacc; [exact Hacc|]. simpl. apply IH.
    unfold keydownStep.
    pose proof (runKeyHandler_document h event (fst acc)) as Hh.
    destruct (runKeyHandler h event (fst acc)) as [x p]. simpl in *.
    eapply sameDocument_trans; eassumption. }
  apply H. apply sameDocument_refl.
Qed.

Lemma runClickHandler_document h target s : sameDocument s (runClickHandler h target s).
Proof.
  destruct h; simpl; [|now split].
  unfold handleBackdropClick. destruct (isBackdrop target s); now split.
Qed.

Lemma click_document target s : sameDocument s (click target s).
Proof.
  unfold click.
  generalize (target :: Dom.ancestors (length (dom (world s))) (dom (world s)) target).
  intros path.
  assert (Hin : forall l x, sameDocument s x ->
                  sameDocument s (fold_left (fun s h => runClickHandler h target s) l x)).
  { induction l as [|h l IH]; intros x Hx; [exact Hx|]. simpl. apply IH.
    eapply sameDocument_trans; [exact Hx | apply runClickHandler_document]. }
  assert (H : forall p x, sameDocument s x ->
                sameDocument s
                  (fold_left (fun s node =>
                                fold_left (fun s h => runClickHandler h target s)
                                  (listenersAt node s) s) p x)).
  { induction p as [|n p IH]; intros x Hx; [exact Hx|]. simpl. apply IH.
    now apply Hin. }
  apply H. apply sameDocument_refl.
Qed.

Lemma keeps_document p s0 s s' :
  sameDocument s s' -> keepsElements p s0 s -> keepsElements p s0 s'.
Proof. intros [Ht Hd] [Hp Hr]. split; [now rewrite Ht | now rewrite Hd]. Qed.

Lemma keeps_perform parse p s0 s a :
  keepsElements p s0 s -> keepsElements p s0 (perform parse s a).
Proof.
  intros K. destruct a; cbn [perform].
  - now apply keeps_show.
  - now apply keeps_hide.
  - now apply keeps_updateProps.
  - now apply keeps_updateContent.
  - now apply keeps_advance.
  - now apply keeps_animationFrame.
  - apply (keeps_document p s0 s); [apply keydown_document | exact K].
  - apply (keeps_document p s0 s); [apply click_document | exact K].
  - apply (keeps_host p (set_activeElement (Some el))); [reflexivity | exact K].
Qed.

Lemma keeps_run parse p s0 (actions : list Action) : forall s,
  keepsElements p s0 s -> keepsElements p s0 (run parse actions s).
Proof.
  unfold run. induction actions as [|a l IH]; intros s K; [exact K|].
  simpl. apply IH. now apply keeps_perform.
Qed.

(** * The claims *)

Ltac by_eval := vm_compute; reflexivity.

(** C1. A Tab keydown on a document where the focus trap is registered (the
    modal is open). With focusable elements [first :: rest]: without Shift
    and with the focus on the last one, the default is prevented and
    [first] gets the focus; with Shift and the focus on [first], the
    default is prevented and the last one gets the focus; every other Tab
    press changes nothing and prevents nothing. With no focusable element
    no Tab press changes or prevents anything. *)
Theorem focus_trap_wraps_at_the_ends :
  forall (event : KeyboardEvent) (s : State),
    key event = "Tab" ->
    List.NoDup (keydownListeners (world s)) ->
    registered TrapFocus s ->
    (focusableElements (this s) = [] -> keydown event s = (s, false)) /\
    (forall first rest,
       focusableElements (this s) = first :: rest ->
       (shiftKey event = false ->
        activeElement (world s) = Some (List.last (first :: rest) first) ->
        keydown event s = (focus first s, true) /\
        activeElement (world (focus first s)) = Some first) /\
       (shiftKey event = true ->
        activeElement (world s) = Some first ->
        keydown event s = (focus (List.last (first :: rest) first) s, true) /\
        activeElement (world (focus (List.last (first :: rest) first) s))
          = Some (List.last (first :: rest) first)) /\
       (shiftKey event = false ->
        activeElement (world s) <> Some (List.last (first :: rest) first) ->
        keydown event s = (s, false)) /\
       (shiftKey event = true ->
        activeElement (world s) <> Some first ->
        keydown event s = (s, false))).
Proof.
  intros event s Hk Hnd Hreg.
  rewrite keydown_unfold, (keydown_tab_trap event _ s false Hk Hnd Hreg).
  unfold trapFocus. rewrite Hk. cbn [String.eqb Ascii.eqb Bool.eqb negb orb].
  split.
  - intros ->. reflexivity.
  - intros first rest ->.
    split; [|split; [|split]]; intros Hshift Hactive; rewrite Hshift.
    + apply isActive_true in Hactive. rewrite Hactive. split; reflexivity.
    + apply isActive_true in Hactive. rewrite Hactive. split; reflexivity.
    + apply isActive_false in Hactive. now rewrite Hactive.
    + apply isActive_false in Hactive. now rewrite Hactive.
Qed.

Lemma focus_trap_witness :
  key (tab false) = "Tab" /\
  List.NoDup (keydownListeners (world threeButtons)) /\
  registered TrapFocus threeButtons /\
  focusableElements (this threeButtons) = [1; 2; 3] /\
  keydown (tab false) (focus 3 threeButtons) = (focus 1 (focus 3 threeButtons), true) /\
  keydown (tab true) threeButtons = (focus 3 threeButtons, true) /\
  keydown (tab false) (focus 2 threeButtons) = (focus 2 threeButtons, false).
Proof.
  assert (Hnodup : List.NoDup [HandleEscapeKey; TrapFocus]).
  { constructor; [intros [H|[]]; discriminate H|].
    constructor; [intros [] | constructor]. }
  assert (Hl1 : keydownListeners (world threeButtons) = [HandleEscapeKey; TrapFocus])
    by by_eval.
  assert (Hl2 : keydownListeners (world (focus 3 threeButtons)) = [HandleEscapeKey; TrapFocus])
    by by_eval.
  assert (Hl3 : keydownListeners (world (focus 2 threeButtons)) = [HandleEscapeKey; TrapFocus])
    by by_eval.
  assert (Hf1 : focusableElements (this threeButtons) = [1; 2; 3]) by by_eval.
  assert (Hf2 : focusableElements (this (focus 3 threeButtons)) = [1; 2; 3]) by by_eval.
  assert (Hf3 : focusableElements (this (focus 2 threeButtons)) = [1; 2; 3]) by by_eval.
  assert (Ha1 : activeElement (world threeButtons) = Some 1) by by_eval.
  assert (Ha2 : activeElement (world (focus 3 threeButtons)) = Some (List.last [1; 2; 3] 1))
    by by_eval.
  assert (Ha3 : activeElement (world (focus 2 threeButtons)) <> Some (List.last [1; 2; 3] 1)).
  { vm_compute. intros E. discriminate E. }
  assert (Hlast : List.last [1; 2; 3] 1 = 3) by reflexivity.
  split; [reflexivity|].
  split; [rewrite Hl1; exact Hnodup|].
  split; [unfold registered; rewrite Hl1; right; left; reflexivity|].
  split; [exact Hf1|].
  split; [|split].
  - refine (proj1 (proj1 (proj2 (focus_trap_wraps_at_the_ends (tab false)
              (focus 3 threeButtons) eq_refl _ _) 1 [2; 3] Hf2) eq_refl Ha2)).
    + rewrite Hl2. exact Hnodup.
    + unfold registered. rewrite Hl2. right. left. reflexivity.
  - rewrite <- Hlast.
    refine (proj1 (proj1 (proj2 (proj2 (focus_trap_wraps_at_the_ends (tab true)
              threeButtons eq_refl _ _) 1 [2; 3] Hf1)) eq_refl Ha1)).
    + rewrite Hl1. exact Hnodup.
    + unfold registered. rewrite Hl1. right. left. reflexivity.
  - refine (proj1 (proj2 (proj2 (proj2 (focus_trap_wraps_at_the_ends (tab false)
              (focus 2 threeButtons) eq_refl _ _) 1 [2; 3] Hf3))) eq_refl Ha3).
    + rewrite Hl3. exact Hnodup.
    + unfold registered. rewrite Hl3. right. left. reflexivity.
Defined.



(** C3, as stated, fails: a modal configured with [closeOnEscape: false]
    has no Escape listener after [show()]. *)
Lemma show_without_escape_listener :
  closeOnEscape (props (this noEscape)) = Some false /\
  keydownListeners (world (show textOnly noEscape)) = [TrapFocus] /\
  ~ registered HandleEscapeKey (show textOnly noEscape).
Proof.
  split; [reflexivity|]. split; [vm_compute; reflexivity|].
  unfold registered. vm_compute. intros [H|[]]. discriminate H.
Qed.

(** C3 (as amended). For every call of [show()] in a document with a body:
    when [show()] returns the portal is a child of [document.body] and the
    focus-trap listener is registered; the Escape listener is registered
    when [closeOnEscape] is not [false], and otherwise [show()] leaves its
    registration as it was. [show()] itself does not touch the "open"
    class (a portal it has just created does not carry it); it queues one
    animation-frame callback, and after the next frame the portal has the
    class. *)
Theorem show_mounts_now_opens_next_frame :
  forall (parse : string -> list Markup) (s : State),
    dom (world s) <> [] ->
    (forall q, portal (this s) = Some q -> q < length (dom (world s))) ->
    exists p,
      portal (this (show parse s)) = Some p /\
      In p (bodyChildren (show parse s)) /\
      registered TrapFocus (show parse s) /\
      (notFalse (closeOnEscape (props (this s))) = true ->
         registered HandleEscapeKey (show parse s)) /\
      (notFalse (closeOnEscape (props (this s))) = false ->
         (registered HandleEscapeKey (show parse s) <-> registered HandleEscapeKey s)) /\
      hasOpenClass p (show parse s) =
        match portal (this s) with
        | Some _ => hasOpenClass p s
        | None => false
        end /\
      frames (world (show parse s)) = frames (world s) ++ [AddOpenClass] /\
      hasOpenClass p (animationFrame (show parse s)) = true.
Proof.
  intros parse s Hbody Hwf.
  pose proof (show_portal parse s) as Hp.
  eexists. split; [exact Hp|].
  split.
  { rewrite (show_attached parse s _ Hbody Hp), in_app_iff. right. now left. }
  unfold registered. rewrite show_keydown.
  split. { apply in_withListener. now left. }
  split. { intros ->. apply in_withListener. right. apply in_withListener. now left. }
  split.
  { intros ->. rewrite in_withListener. split; [|tauto]. intros [H|H]; [discriminate | exact H]. }
  split. { now apply show_open_class. }
  destruct (show_host parse s) as (_ & _ & _ & Hf & _).
  split; [exact Hf|].
  unfold animationFrame. apply frames_add_class.
  - exact Hp.
  - apply (show_portal_in_heap parse s _ Hwf Hp).
  - left. rewrite Hf. destruct (frames (world s)); discriminate.
Qed.

Lemma show_witness :
  dom (world closedModal) <> [] /\
  (forall q, portal (this closedModal) = Some q -> q < length (dom (world closedModal))) /\
  exists p,
    portal (this (show textOnly closedModal)) = Some p /\
    In p (bodyChildren (show textOnly closedModal)) /\
    registered TrapFocus (show textOnly closedModal) /\
    registered HandleEscapeKey (show textOnly closedModal) /\
    hasOpenClass p (show textOnly closedModal) = false /\
    hasOpenClass p (animationFrame (show textOnly closedModal)) = true.
Proof.
  assert (H1 : dom (world closedModal) <> []) by (vm_compute; discriminate).
  assert (H2 : forall q, portal (this closedModal) = Some q ->
                 q < length (dom (world closedModal))).
  { intros q H. vm_compute in H. discriminate H. }
  assert (He' : notFalse (closeOnEscape (props (this closedModal))) = true) by by_eval.
  assert (Hn : portal (this closedModal) = None) by by_eval.
  split; [exact H1|]. split; [exact H2|].
  destruct (show_mounts_now_opens_next_frame textOnly closedModal H1 H2)
    as (p & Hp & Hin & Ht & He & _ & Hc & _ & Hf).
  exists p. split; [exact Hp|]. split; [exact Hin|]. split; [exact Ht|].
  split; [exact (He He')|]. split; [|exact Hf].
  rewrite Hc, Hn. reflexivity.
Defined.

(** C4. [updateProps] compares the old [isOpen] with the merged one: from
    closed to open it is [show()] on the new configuration, from open to
    closed it is [hide()], and from open to open it is [hide()] followed by
    a timer of 200 ms whose callback is [show()]; with a portal and no
    other timer due in between, the cleanup of that [hide()] and the
    deferred [show()] are the next two timers, in this order. *)
Theorem updateProps_diffs_isOpen :
  forall (parse : string -> list Markup) (newProps : PartialProps) (s : State),
    (isOpen (props (this s)) = false ->
     isOpen (spread (props (this s)) newProps) = true ->
     updateProps parse newProps s = show parse (withNewProps newProps s)) /\
    (isOpen (props (this s)) = true ->
     isOpen (spread (props (this s)) newProps) = false ->
     updateProps parse newProps s = hide (withNewProps newProps s)) /\
    (isOpen (props (this s)) = true ->
     isOpen (spread (props (this s)) newProps) = true ->
     updateProps parse newProps s =
       setTimeout ShowAgain ANIMATION_MS (hide (withNewProps newProps s)) /\
     (forall x, runTimer parse ShowAgain x = show parse x) /\
     (forall p, portal (this s) = Some p ->
        Forall (fun t => (now (world s) + ANIMATION_MS < fst t)%Z) (timers (world s)) ->
        timers (world (updateProps parse newProps s)) =
          ((now (world s) + ANIMATION_MS)%Z, HideCleanup)
            :: ((now (world s) + ANIMATION_MS)%Z, ShowAgain) :: timers (world s))).
Proof.
  intros parse newProps s. rewrite updateProps_cases.
  split; [|split].
  - intros -> ->. reflexivity.
  - intros -> ->. reflexivity.
  - intros -> ->. cbn [andb negb]. split; [reflexivity|]. split; [reflexivity|].
    intros p Hp Hquiet.
    assert (Hp' : portal (this (withNewProps newProps s)) = Some p) by exact Hp.
    destruct (hide_fields _ p Hp') as (_ & _ & Htm & Hn & _).
    change (timers (world (withNewProps newProps s))) with (timers (world s)) in Htm.
    change (now (world (withNewProps newProps s))) with (now (world s)) in Htm, Hn.
    rewrite (insertTimer_front ((now (world s) + ANIMATION_MS)%Z, HideCleanup) _ Hquiet) in Htm.
    unfold setTimeout. cbn [world onWorld timers set_timers]. rewrite Htm, Hn.
    cbn [insertTimer fst]. rewrite Z.leb_refl.
    now rewrite (insertTimer_front ((now (world s) + ANIMATION_MS)%Z, ShowAgain) _ Hquiet).
Qed.

Lemma updateProps_witness :
  updateProps textOnly (setOpen true) closedModal
    = show textOnly (withNewProps (setOpen true) closedModal) /\
  updateProps textOnly (setOpen false) openModal
    = hide (withNewProps (setOpen false) openModal) /\
  updateProps textOnly noChange openModal
    = setTimeout ShowAgain ANIMATION_MS (hide (withNewProps noChange openModal)) /\
  timers (world (updateProps textOnly noChange openModal))
    = [(200%Z, HideCleanup); (200%Z, ShowAgain)].
Proof.
  assert (Hc : isOpen (props (this closedModal)) = false) by by_eval.
  assert (Ho : isOpen (props (this openModal)) = true) by by_eval.
  assert (Hp : portal (this openModal) = Some 3) by by_eval.
  assert (Ht : timers (world openModal) = []) by by_eval.
  assert (Hn : now (world openModal) = 0%Z) by by_eval.
  assert (Hm : isOpen (spread (props (this openModal)) noChange) = true) by by_eval.
  assert (Hm1 : isOpen (spread (props (this closedModal)) (setOpen true)) = true) by by_eval.
  assert (Hm2 : isOpen (spread (props (this openModal)) (setOpen false)) = false) by by_eval.
  destruct (updateProps_diffs_isOpen textOnly (setOpen true) closedModal) as (H1 & _ & _).
  destruct (updateProps_diffs_isOpen textOnly (setOpen false) openModal) as (_ & H2 & _).
  destruct (updateProps_diffs_isOpen textOnly noChange openModal) as (_ & _ & H3).
  destruct H3 as (H4 & _ & H5); [exact Ho | exact Hm |].
  split; [apply H1; [exact Hc | exact Hm1]|].
  split; [apply H2; [exact Ho | exact Hm2]|].
  split; [exact H4|].
  rewrite (H5 3 Hp), Ht, Hn; [reflexivity|]. rewrite Ht. constructor.
Defined.

(** C5 at the failing input: the modal is open and configured with
    [closeOnBackdropClick: false], and a click on the backdrop (element 4)
    still calls [onClose]; a click on the modal body (element 8) does not. *)
Theorem backdrop_click_ignores_updated_flag :
  closeOnBackdropClick (props (this backdropDisabled)) = Some false /\
  backdrop (this backdropDisabled) = Some 4 /\
  portalsInBody backdropDisabled = [3] /\
  hasOpenClass 3 backdropDisabled = true /\
  closeLog (world backdropDisabled) = [] /\
  closeLog (world (click 4 backdropDisabled)) = [0] /\
  closeLog (world (click 8 backdropDisabled)) = [].
Proof. vm_compute. repeat split. Qed.

(** C6, as stated, fails: after [destroy()] the controller still holds the
    element captured for the focus restoration and its list of focusable
    elements. *)
Lemma destroy_keeps_focus_references :
  previousFocusedElement (this (destroy openModal)) = Some 0 /\
  focusableElements (this (destroy openModal)) = [7] /\
  ~ holdsNoElement (this (destroy openModal)).
Proof.
  split; [vm_compute; reflexivity|]. split; [vm_compute; reflexivity|].
  intros (_ & _ & _ & _ & _ & _ & H & _). vm_compute in H. discriminate H.
Qed.

(** C6 (as amended). [destroy()] is [hide()] followed by the release of the
    portal, backdrop, modal, header, body and close-button references; the
    element captured for the focus restoration stays with the controller.
    A second [destroy()] changes nothing. Once the animation delay has
    passed after [destroy(); destroy()], no keydown listener (Escape or
    focus trap) is registered on the document. The model of [destroy] is a
    total function: no call it makes can fail. *)
Theorem destroy_releases_and_is_idempotent :
  forall (parse : string -> list Markup) (s : State),
    destroy s = onThis released (hide s) /\
    (portal (this (destroy s)) = None /\ backdrop (this (destroy s)) = None /\
     modal (this (destroy s)) = None /\ header (this (destroy s)) = None /\
     body (this (destroy s)) = None /\ closeButton (this (destroy s)) = None) /\
    previousFocusedElement (this (destroy s)) = previousFocusedElement (this s) /\
    destroy (destroy s) = destroy s /\
    (idleWithoutPortal s -> timersWithinDelay s ->
     forall ms, (ANIMATION_MS <= ms)%Z ->
       keydownListeners (world (advance parse ms (destroy (destroy s)))) = []).
Proof.
  intros parse s.
  split; [reflexivity|]. split; [repeat split|].
  split. { rewrite destroy_unfold. cbn [this onThis released previousFocusedElement
             set_closeButton set_body set_header set_modal set_backdrop set_portal].
           now rewrite hide_this. }
  split; [apply destroy_idempotent|].
  intros Hidle Hbound ms Hms. now apply destroy_twice_clears_listeners.
Qed.

Lemma destroy_witness :
  idleWithoutPortal openModal /\
  timersWithinDelay openModal /\
  portal (this (destroy openModal)) = None /\
  destroy (destroy openModal) = destroy openModal /\
  registered TrapFocus (destroy (destroy openModal)) /\
  keydownListeners (world (advance textOnly ANIMATION_MS (destroy (destroy openModal)))) = [].
Proof.
  assert (Hp : portal (this openModal) = Some 3) by by_eval.
  assert (Ht : timers (world openModal) = []) by by_eval.
  assert (H1 : idleWithoutPortal openModal).
  { intros H. rewrite Hp in H. discriminate H. }
  assert (H2 : timersWithinDelay openModal).
  { unfold timersWithinDelay. rewrite Ht. constructor. }
  assert (Hk : keydownListeners (world (destroy (destroy openModal)))
               = [HandleEscapeKey; TrapFocus]) by by_eval.
  destruct (destroy_releases_and_is_idempotent textOnly openModal)
    as (_ & (Hn & _) & _ & Hi & Hl).
  split; [exact H1|]. split; [exact H2|]. split; [exact Hn|]. split; [exact Hi|].
  split; [unfold registered; rewrite Hk; right; left; reflexivity|].
  apply (Hl H1 H2). unfold ANIMATION_MS. lia.
Defined.

(** C7 at the failing input: 200 ms after the re-rendering [updateProps],
    with a [destroy()] in between, two portals created by the controller
    (elements 3 and 9, neither of the page) are children of
    [document.body]; 100 ms later the first one is still there and the
    controller no longer refers to it. *)
Theorem two_portals_after_destroy_during_rerender :
  length (dom (page 2)) = 3 /\
  portalsInBody openModal = [3] /\
  portalsInBody destroyedWhileRerendering = [3; 9] /\
  portal (this destroyedWhileRerendering) = Some 9 /\
  portalsInBody (advance textOnly 100 destroyedWhileRerendering) = [3] /\
  portal (this (advance textOnly 100 destroyedWhileRerendering)) = Some 9.
Proof. vm_compute. repeat split. Qed.

(** C8, as stated, fails: before the first [show()] the controller has no
    body element and [updateContent] returns at once; the [show()] that
    follows builds the body from [props.children], so neither the body nor
    the focusable-element list ever sees the content that was passed
    (element 2, a button of the page). *)
Lemma updateContent_before_first_show :
  body (this closedModal) = None /\
  updateContent textOnly (CElement 2) closedModal = closedModal /\
  body (this (show textOnly (updateContent textOnly (CElement 2) closedModal))) = Some 8 /\
  Dom.childrenOf
    (dom (world (show textOnly (updateContent textOnly (CElement 2) closedModal)))) 8 = [] /\
  focusableElements (this (show textOnly (updateContent textOnly (CElement 2) closedModal)))
    = [7].
Proof. vm_compute. repeat split. Qed.

(** C8 (as amended). Without a body element [updateContent] does nothing.
    On a controller that has its body element, [updateContent] leaves the
    body with exactly the new content -- the one element, the elements of
    the array in the order [appendChild] leaves them, or the elements
    parsed from the markup, all of them new -- and stores as
    focusable-element list the list computed on the document after the
    replacement. The list held before the call has no influence on the
    result, so every later decision of the focus trap is taken on the new
    list. *)
Theorem updateContent_replaces_and_recomputes :
  forall (parse : string -> list Markup) (c : Content) (s : State),
    (body (this s) = None -> updateContent parse c s = s) /\
    (forall b,
       body (this s) = Some b ->
       b < length (dom (world s)) ->
       match c with
       | CElement el =>
           Dom.childrenOf (dom (world (updateContent parse c s))) b = [el]
       | CElements els =>
           Dom.childrenOf (dom (world (updateContent parse c s))) b
             = fold_left moveLast els [] /\
           (List.NoDup els ->
              Dom.childrenOf (dom (world (updateContent parse c s))) b = els)
       | CString markup =>
           Forall (fun i => length (dom (world s)) <= i)
             (Dom.childrenOf (dom (world (updateContent parse c s))) b) /\
           length (Dom.childrenOf (dom (world (updateContent parse c s))) b)
             = length (if String.eqb markup "" then [] else parse markup)
       end /\
       focusableElements (this (updateContent parse c s))
         = getFocusableElements (updateContent parse c s) /\
       (forall stale,
          updateContent parse c (onThis (set_focusableElements stale) s)
          = updateContent parse c s) /\
       (forall event stale,
          trapFocus event (updateContent parse c (onThis (set_focusableElements stale) s))
          = trapFocus event (updateContent parse c s))).
Proof.
  intros parse c s. split.
  { intros Hb. unfold updateContent. now rewrite Hb. }
  intros b Hb Hlen.
  assert (Hstale : forall stale,
            updateContent parse c (onThis (set_focusableElements stale) s)
            = updateContent parse c s).
  { intros stale. rewrite (updateContent_mounted parse c s b Hb).
    rewrite (updateContent_mounted parse c _ b) by exact Hb.
    destruct c; reflexivity. }
  split; [|split; [|split]].
  - rewrite (updateContent_mounted parse c s b Hb).
    cbn [world onThis dom]. destruct c as [markup|el|els];
      cbn [contentReplaced world onDom onWorld dom set_dom]; rewrite setInnerHTML_empty.
    + destruct (childrenOf_setInnerHTML parse b markup
                  (alter (Dom.with_childNodes []) b (dom (world s)))) as [H1 H2].
      { now rewrite length_alter. }
      rewrite length_alter in H1. split; assumption.
    + rewrite childrenOf_appendChild by (now rewrite length_alter).
      now rewrite childrenOf_cleared.
    + rewrite childrenOf_appendAll by (now rewrite length_alter).
      rewrite childrenOf_cleared. split; [reflexivity|].
      intros Hnd. now apply (moveLast_distinct els []).
  - rewrite (updateContent_mounted parse c s b Hb). reflexivity.
  - exact Hstale.
  - intros event stale. now rewrite Hstale.
Qed.

Lemma updateContent_witness :
  body (this threeButtons) = Some 7 /\
  7 < length (dom (world threeButtons)) /\
  focusableElements (this threeButtons) = [1; 2; 3] /\
  Dom.childrenOf (dom (world (updateContent textOnly (CElement 2) threeButtons))) 7 = [2] /\
  focusableElements (this (updateContent textOnly (CElement 2) threeButtons))
    = getFocusableElements (updateContent textOnly (CElement 2) threeButtons) /\
  focusableElements (this (updateContent textOnly (CElement 2) threeButtons)) = [2].
Proof.
  assert (H1 : body (this threeButtons) = Some 7) by by_eval.
  assert (Hl : length (dom (world threeButtons)) = 8) by by_eval.
  assert (H2 : 7 < length (dom (world threeButtons))) by (rewrite Hl; lia).
  destruct (updateContent_replaces_and_recomputes textOnly (CElement 2) threeButtons)
    as (_ & H).
  destruct (H 7 H1 H2) as (Hk & Hf & _).
  split; [exact H1|]. split; [exact H2|]. split; [by_eval|].
  split; [exact Hk|]. split; [exact Hf|]. by_eval.
Defined.

(** C9. With [isOpen] false the constructor builds nothing: no portal, and
    the world is the one it was given. With [isOpen] true the constructor
    is [show()] on the fresh controller, so that in a document with a body
    a newly created portal is a child of [document.body] when the
    constructor returns. *)
Theorem constructor_shows_iff_open :
  forall (parse : string -> list Markup) (p : ModalProps) (w : World),
    (isOpen p = false ->
       constructor parse p w = {| this := newModal p; world := w |} /\
       portal (this (constructor parse p w)) = None /\
       world (constructor parse p w) = w) /\
    (isOpen p = true ->
       constructor parse p w = show parse {| this := newModal p; world := w |} /\
       (dom w <> [] ->
          portal (this (constructor parse p w)) = Some (length (dom w)) /\
          In (length (dom w)) (bodyChildren (constructor parse p w)))).
Proof.
  intros parse p w. unfold constructor. split; intros ->.
  - repeat split.
  - split; [reflexivity|]. intros Hd.
    pose proof (show_portal parse {| this := newModal p; world := w |}) as Hp.
    cbn [portal this newModal world dom] in Hp. split; [exact Hp|].
    rewrite (show_attached parse {| this := newModal p; world := w |} _ Hd Hp), in_app_iff.
    right. now left.
Qed.

Lemma constructor_witness :
  portal (this (constructor textOnly (defaults false) (page 2))) = None /\
  world (constructor textOnly (defaults false) (page 2)) = page 2 /\
  portal (this (constructor textOnly (defaults true) (page 2))) = Some 3 /\
  In 3 (bodyChildren (constructor textOnly (defaults true) (page 2))).
Proof.
  destruct (constructor_shows_iff_open textOnly (defaults false) (page 2)) as (H1 & _).
  destruct (constructor_shows_iff_open textOnly (defaults true) (page 2)) as (_ & H2).
  destruct (H1 eq_refl) as (_ & Hp & Hw).
  destruct (H2 eq_refl) as (_ & H3).
  destruct H3 as (Hq & Hin); [discriminate|].
  split; [exact Hp|]. split; [exact Hw|]. split; [exact Hq | exact Hin].
Defined.

(** C10. When [isOpen] was false and is false in the merged configuration,
    [updateProps] only stores the merged configuration: the world (document,
    listeners, timers, frames, focus) and every other field of the
    controller are what they were. *)
Theorem updateProps_closed_stays_closed :
  forall (parse : string -> list Markup) (newProps : PartialProps) (s : State),
    isOpen (props (this s)) = false ->
    isOpen (spread (props (this s)) newProps) = false ->
    updateProps parse newProps s = withNewProps newProps s /\
    world (updateProps parse newProps s) = world s /\
    props (this (updateProps parse newProps s)) = spread (props (this s)) newProps /\
    portal (this (updateProps parse newProps s)) = portal (this s) /\
    backdrop (this (updateProps parse newProps s)) = backdrop (this s) /\
    modal (this (updateProps parse newProps s)) = modal (this s) /\
    header (this (updateProps parse newProps s)) = header (this s) /\
    body (this (updateProps parse newProps s)) = body (this s) /\
    closeButton (this (updateProps parse newProps s)) = closeButton (this s) /\
    previousFocusedElement (this (updateProps parse newProps s))
      = previousFocusedElement (this s) /\
    focusableElements (this (updateProps parse newProps s)) = focusableElements (this s).
Proof.
  intros parse newProps s H1 H2. rewrite updateProps_cases, H1, H2. cbn [andb negb].
  repeat split.
Qed.

Lemma updateProps_closed_witness :
  isOpen (props (this closedModal)) = false /\
  isOpen (spread (props (this closedModal)) (setBackdropClick false)) = false /\
  world (updateProps textOnly (setBackdropClick false) closedModal) = world closedModal /\
  closeOnBackdropClick (props (this (updateProps textOnly (setBackdropClick false) closedModal)))
    = Some false /\
  portal (this (updateProps textOnly (setBackdropClick false) closedModal))
    = portal (this closedModal).
Proof.
  assert (Hc : isOpen (props (this closedModal)) = false) by by_eval.
  assert (Hm : isOpen (spread (props (this closedModal)) (setBackdropClick false)) = false)
    by by_eval.
  destruct (updateProps_closed_stays_closed textOnly (setBackdropClick false) closedModal
              Hc Hm) as (_ & Hw & Hp & Hportal & _).
  split; [exact Hc|]. split; [exact Hm|]. split; [exact Hw|].
  split; [rewrite Hp; by_eval | exact Hportal].
Defined.

(** * Further properties of the class *)

(** X1. On a page whose body lists elements of the document, and as long
    as [destroy()] is not called: an element created since the controller
    was constructed is a child of [document.body] only if it is the
    controller's portal, and then it is so exactly once, whatever sequence
    of [show], [hide], [updateProps], [updateContent], timers, frames and
    user input has run. *)
Theorem created_child_of_body_is_the_portal :
  forall (parse : string -> list Markup) (p : ModalProps) (w : World) (actions : list Action)
         (i : nat),
    freshPage w -> childrenInHeap w ->
    In i (bodyChildren (run parse actions (constructor parse p w))) ->
    length (dom w) <= i ->
    portal (this (run parse actions (constructor parse p w))) = Some i /\
    count_occ Nat.eq_dec (bodyChildren (run parse actions (constructor parse p w))) i = 1.
Proof.
  intros parse p w actions i Hw Hc.
  destruct (one_portal_unless_destroyed parse p w actions Hw Hc) as (K1 & K2 & _).
  revert K1 K2. generalize (run parse actions (constructor parse p w)).
  intros s K1 K2 Hi Hn. specialize (K1 i Hi Hn). split; [exact K1|].
  specialize (K2 i K1). apply (count_occ_In Nat.eq_dec) in Hi. lia.
Qed.

Lemma created_child_of_body_witness :
  portal (this (run textOnly [CallUpdateProps noChange; Wait 200; Frame; CallShow]
                  (constructor textOnly (defaults true) (page 2)))) = Some 3 /\
  count_occ Nat.eq_dec
    (bodyChildren (run textOnly [CallUpdateProps noChange; Wait 200; Frame; CallShow]
                     (constructor textOnly (defaults true) (page 2)))) 3 = 1.
Proof.
  apply (created_child_of_body_is_the_portal textOnly (defaults true) (page 2)
           [CallUpdateProps noChange; Wait 200; Frame; CallShow] 3).
  - apply page_fresh.
  - apply page_fresh.
  - assert (H : bodyChildren (run textOnly [CallUpdateProps noChange; Wait 200; Frame; CallShow]
                                (constructor textOnly (defaults true) (page 2))) = [1; 2; 3])
      by by_eval.
    rewrite H. simpl. tauto.
  - simpl. lia.
Defined.

(** X2. As long as [destroy()] is not called, however often [show()] ran:
    an Escape keydown calls [onClose] exactly once -- the [onClose] of the
    configuration at the time of the key press -- when the Escape listener
    is registered and [closeOnEscape] is not false at that time, and not at
    all otherwise; it changes nothing else and never prevents the default.
    A key other than Escape and Tab changes nothing. *)
Theorem escape_calls_onClose_once :
  forall (parse : string -> list Markup) (p : ModalProps) (w : World) (actions : list Action)
         (event : KeyboardEvent),
    freshPage w ->
    (key event = "Escape" ->
     keydown event (run parse actions (constructor parse p w)) =
     (if existsb (keyHandler_eqb HandleEscapeKey)
           (keydownListeners (world (run parse actions (constructor parse p w))))
         && notFalse (closeOnEscape (props (this (run parse actions (constructor parse p w)))))
      then callOnClose (run parse actions (constructor parse p w))
      else run parse actions (constructor parse p w),
      false)) /\
    (key event <> "Escape" -> key event <> "Tab" ->
     keydown event (run parse actions (constructor parse p w)) =
     (run parse actions (constructor parse p w), false)) /\
    closeLog (world (callOnClose (run parse actions (constructor parse p w)))) =
      closeLog (world (run parse actions (constructor parse p w)))
      ++ [onClose (props (this (run parse actions (constructor parse p w))))].
Proof.
  intros parse p w actions event Hw.
  destruct (reachable_consistent parse p w actions Hw) as ((Hnd & _) & _).
  revert Hnd. generalize (run parse actions (constructor parse p w)). intros s Hnd.
  split; [|split; [|reflexivity]].
  - intros Hk. rewrite keydown_unfold.
    destruct (existsb (keyHandler_eqb HandleEscapeKey) (keydownListeners (world s))) eqn:E.
    + apply existsb_keyHandler in E.
      rewrite (keydown_escape_handler event _ s false Hk Hnd E).
      unfold handleEscapeKey. rewrite Hk.
      change (String.eqb "Escape" "Escape") with true. cbn [andb].
      now destruct (notFalse (closeOnEscape (props (this s)))).
    + apply keydown_escape_others; [exact Hk|].
      intros Hin. apply existsb_keyHandler in Hin. congruence.
  - intros Hne Hnt. rewrite keydown_unfold.
    generalize (keydownListeners (world s)). intros l.
    induction l as [|h l IH]; [reflexivity|]. simpl.
    assert (Hh : keydownStep event (s, false) h = (s, false)).
    { unfold keydownStep. destruct h; cbn [runKeyHandler fst snd].
      - unfold handleEscapeKey.
        destruct (String.eqb_spec (key event) "Escape") as [H|_]; [congruence | reflexivity].
      - unfold trapFocus.
        destruct (String.eqb_spec (key event) "Tab") as [H|_]; [congruence | reflexivity]. }
    rewrite Hh. exact IH.
Qed.

Lemma escape_calls_onClose_witness :
  closeLog (world (fst (keydown {| key := "Escape"; shiftKey := false |}
                          (run textOnly [CallShow; CallShow; Frame]
                             (constructor textOnly (defaults true) (page 2)))))) = [0].
Proof.
  destruct (escape_calls_onClose_once textOnly (defaults true) (page 2)
              [CallShow; CallShow; Frame] {| key := "Escape"; shiftKey := false |})
    as (H & _ & _).
  - apply page_fresh.
  - rewrite (H eq_refl). by_eval.
Defined.

(** X3. [show()] does not cancel a pending [hide()]. With a portal [p] and
    no other timer due within the animation delay: after [hide()] and an
    immediate [show()] the portal is a child of [document.body] and the
    focus trap is registered, but when the 200 ms of the [hide()] have
    passed the cleanup runs all the same: [p] is detached, no keydown
    listener is left and the scroll lock is released, although [show()] was
    the last call. *)
Theorem show_does_not_cancel_hide :
  forall (parse : string -> list Markup) (s : State) (p : nat),
    portal (this s) = Some p ->
    dom (world s) <> [] ->
    Forall (fun t => (now (world s) + ANIMATION_MS < fst t)%Z) (timers (world s)) ->
    In p (bodyChildren (show parse (hide s))) /\
    registered TrapFocus (show parse (hide s)) /\
    bodyOverflow (world (show parse (hide s))) = "hidden" /\
    portal (this (advance parse ANIMATION_MS (show parse (hide s)))) = Some p /\
    ~ In p (bodyChildren (advance parse ANIMATION_MS (show parse (hide s)))) /\
    keydownListeners (world (advance parse ANIMATION_MS (show parse (hide s)))) = [] /\
    bodyOverflow (world (advance parse ANIMATION_MS (show parse (hide s)))) = "" /\
    timers (world (advance parse ANIMATION_MS (show parse (hide s)))) = timers (world s).
Proof.
  intros parse s p Hp Hd Hquiet.
  destruct (hide_fields s p Hp) as (Ht & Hdom & Htm & Hn & _).
  rewrite (insertTimer_front ((now (world s) + ANIMATION_MS)%Z, HideCleanup) _ Hquiet) in Htm.
  assert (Hph : portal (this (hide s)) = Some p) by (now rewrite Ht).
  assert (Hdh : dom (world (hide s)) <> []).
  { rewrite Hdom. apply (nonempty_length (dom (world s))); [|exact Hd].
    now rewrite DomFacts.length_classListRemove. }
  destruct (show_again_no_duplicate parse (hide s) p Hdh Hph) as (Hps & _ & Hcount).
  destruct (show_host parse (hide s)) as (Hov & Hns & Hts & _).
  split. { apply (count_occ_In Nat.eq_dec). rewrite Hcount. lia. }
  split. { unfold registered. rewrite show_keydown. apply in_withListener. now left. }
  split; [exact Hov|].
  destruct (advance_cleanup parse ANIMATION_MS (show parse (hide s)) p
              (now (world s) + ANIMATION_MS)%Z (timers (world s)) Hps)
    as (A1 & A2 & A3 & A4 & A5).
  { rewrite Hts. exact Htm. }
  { rewrite Hns, Hn. apply Z.le_refl. }
  { rewrite Hns, Hn. exact Hquiet. }
  split; [rewrite A1; exact Hps|]. split; [exact A2|]. split; [exact A3|].
  split; [exact A4 | exact A5].
Qed.

Lemma show_does_not_cancel_hide_witness :
  In 3 (bodyChildren (show textOnly (hide openModal))) /\
  ~ In 3 (bodyChildren (advance textOnly ANIMATION_MS (show textOnly (hide openModal)))) /\
  keydownListeners (world (advance textOnly ANIMATION_MS (show textOnly (hide openModal)))) = [].
Proof.
  assert (Hp : portal (this openModal) = Some 3) by by_eval.
  assert (Hd : dom (world openModal) <> []).
  { vm_compute. intros E. discriminate E. }
  assert (Ht : timers (world openModal) = []) by by_eval.
  destruct (show_does_not_cancel_hide textOnly openModal 3 Hp Hd)
    as (H1 & _ & _ & _ & H2 & H3 & _).
  - rewrite Ht. constructor.
  - split; [exact H1|]. split; [exact H2 | exact H3].
Defined.

(** X4. The outcome of the re-render path of [updateProps]. With a portal
    [p] in a document with a body, [isOpen] true before and after the
    merge, and no other timer due within the animation delay: when the
    200 ms have passed the modal is mounted again -- [p] is a child of
    [document.body] exactly once and no element was created --, the scroll
    lock is set, the focus trap is registered and the Escape listener is
    registered exactly when the merged [closeOnEscape] is not false; the
    element to restore the focus to is still the one captured before, the
    focusable-element list is computed afresh. The "open" class, taken
    away by the call, is back after the next animation frame. *)
Theorem rerender_leaves_the_modal_mounted :
  forall (parse : string -> list Markup) (newProps : PartialProps) (s : State) (p : nat),
    portal (this s) = Some p ->
    p < length (dom (world s)) ->
    isOpen (props (this s)) = true ->
    isOpen (spread (props (this s)) newProps) = true ->
    Forall (fun t => (now (world s) + ANIMATION_MS < fst t)%Z) (timers (world s)) ->
    portal (this (advance parse ANIMATION_MS (updateProps parse newProps s))) = Some p /\
    props (this (advance parse ANIMATION_MS (updateProps parse newProps s)))
      = spread (props (this s)) newProps /\
    count_occ Nat.eq_dec
      (bodyChildren (advance parse ANIMATION_MS (updateProps parse newProps s))) p = 1 /\
    length (dom (world (advance parse ANIMATION_MS (updateProps parse newProps s))))
      = length (dom (world s)) /\
    keydownListeners (world (advance parse ANIMATION_MS (updateProps parse newProps s))) =
      withListener TrapFocus
        (if notFalse (closeOnEscape (spread (props (this s)) newProps))
         then [HandleEscapeKey] else []) /\
    bodyOverflow (world (advance parse ANIMATION_MS (updateProps parse newProps s)))
      = "hidden" /\
    timers (world (advance parse ANIMATION_MS (updateProps parse newProps s)))
      = timers (world s) /\
    previousFocusedElement (this (advance parse ANIMATION_MS (updateProps parse newProps s))) =
      match previousFocusedElement (this s) with
      | Some el => Some el
      | None => activeElement (world s)
      end /\
    focusableElements (this (advance parse ANIMATION_MS (updateProps parse newProps s)))
      = getFocusableElements (advance parse ANIMATION_MS (updateProps parse newProps s)) /\
    hasOpenClass p (updateProps parse newProps s) = false /\
    hasOpenClass p
      (animationFrame (advance parse ANIMATION_MS (updateProps parse newProps s))) = true.
Proof.
  intros parse newProps s p Hp Hlen Hwas Hnew Hquiet.
  assert (Hd : dom (world s) <> []).
  { intros E. rewrite E in Hlen. simpl in Hlen. lia. }
  assert (Hx : updateProps parse newProps s
               = setTimeout ShowAgain ANIMATION_MS (hide (withNewProps newProps s))).
  { rewrite updateProps_cases, Hwas, Hnew. reflexivity. }
  assert (Hpw : portal (this (withNewProps newProps s)) = Some p) by exact Hp.
  destruct (hide_fields (withNewProps newProps s) p Hpw)
    as (Ht & Hdom & Htm & Hn & _ & _ & Hact & Hfr & _).
  change (timers (world (withNewProps newProps s))) with (timers (world s)) in Htm.
  change (now (world (withNewProps newProps s))) with (now (world s)) in Htm, Hn.
  change (dom (world (withNewProps newProps s))) with (dom (world s)) in Hdom.
  change (activeElement (world (withNewProps newProps s)))
    with (activeElement (world s)) in Hact.
  change (frames (world (withNewProps newProps s))) with (frames (world s)) in Hfr.
  rewrite (insertTimer_front ((now (world s) + ANIMATION_MS)%Z, HideCleanup) _ Hquiet) in Htm.
  assert (X : this (updateProps parse newProps s) = this (withNewProps newProps s) /\
              dom (world (updateProps parse newProps s))
                = Dom.classListRemove p "modal-portal--open" (dom (world s)) /\
              timers (world (updateProps parse newProps s))
                = ((now (world s) + ANIMATION_MS)%Z, HideCleanup)
                  :: ((now (world s) + ANIMATION_MS)%Z, ShowAgain) :: timers (world s) /\
              now (world (updateProps parse newProps s)) = now (world s) /\
              activeElement (world (updateProps parse newProps s)) = activeElement (world s) /\
              frames (world (updateProps parse newProps s)) = frames (world s)).
  { rewrite Hx. revert Ht Hdom Htm Hn Hact Hfr. generalize (hide (withNewProps newProps s)).
    intros h Ht Hdom Htm Hn Hact Hfr.
    cbn [setTimeout this world onWorld dom timers now activeElement frames set_timers].
    rewrite Htm, Hn. cbn [insertTimer fst]. rewrite Z.leb_refl.
    rewrite (insertTimer_front ((now (world s) + ANIMATION_MS)%Z, ShowAgain) _ Hquiet).
    repeat split; assumption. }
  destruct X as (X1 & X2 & X3 & X4 & X5 & X6).
  destruct (advance_rerender parse ANIMATION_MS (updateProps parse newProps s) p
              (now (world s) + ANIMATION_MS)%Z (timers (world s)))
    as (A1 & A2 & A3 & A4 & A5 & A6 & A7 & A8 & A9 & A10).
  { rewrite X1. exact Hp. }
  { rewrite X2. apply (nonempty_length (dom (world s))); [|exact Hd].
    now rewrite DomFacts.length_classListRemove. }
  { exact X3. }
  { rewrite X4. apply Z.le_refl. }
  { rewrite X4. exact Hquiet. }
  rewrite X2, DomFacts.length_classListRemove in A10.
  split; [exact A1|].
  split; [rewrite A2, X1; reflexivity|].
  split; [exact A3|]. split; [exact A10|].
  split; [rewrite A4, X1; reflexivity|].
  split; [exact A5|]. split; [exact A6|].
  split; [rewrite A7, X1, X5; reflexivity|].
  split; [exact A9|].
  split.
  { unfold hasOpenClass. rewrite X2. apply hasClass_classListRemove. }
  revert A1 A8 A10. generalize (advance parse ANIMATION_MS (updateProps parse newProps s)).
  intros a A1 A8 A10. unfold animationFrame.
  apply frames_add_class.
  - exact A1.
  - cbn [world onWorld dom set_frames]. rewrite A10. exact Hlen.
  - left. rewrite A8. intros E. now apply app_eq_nil in E.
Qed.

Lemma rerender_witness :
  bodyChildren (advance textOnly ANIMATION_MS (updateProps textOnly noChange openModal))
    = [1; 2; 3] /\
  keydownListeners (world (advance textOnly ANIMATION_MS
                             (updateProps textOnly noChange openModal)))
    = [HandleEscapeKey; TrapFocus] /\
  previousFocusedElement (this (advance textOnly ANIMATION_MS
                                  (updateProps textOnly noChange openModal))) = Some 0.
Proof.
  assert (Hp : portal (this openModal) = Some 3) by by_eval.
  assert (Hl : length (dom (world openModal)) = 9) by by_eval.
  assert (Ht : timers (world openModal) = []) by by_eval.
  assert (Hf : previousFocusedElement (this openModal) = Some 0) by by_eval.
  destruct (rerender_leaves_the_modal_mounted textOnly noChange openModal 3 Hp)
    as (_ & _ & _ & _ & H1 & _ & _ & H2 & _).
  - rewrite Hl. lia.
  - by_eval.
  - by_eval.
  - rewrite Ht. constructor.
  - split; [by_eval|]. split; [rewrite H1; by_eval|]. rewrite H2, Hf. reflexivity.
Defined.

(** X5. A second [hide()] right after a [hide()] only queues a second
    cleanup, which finds nothing left to do: once the animation delay has
    passed, the state after [hide(); hide()] is the state after one
    [hide()], whatever else was pending. *)
Theorem hide_twice_is_hide_once :
  forall (parse : string -> list Markup) (s : State) (ms : Z),
    (ANIMATION_MS <= ms)%Z ->
    advance parse ms (hide (hide s)) = advance parse ms (hide s).
Proof.
  intros parse s ms Hms.
  destruct (portal (this s)) as [p|] eqn:Hp; [|now rewrite !(hide_unmounted s Hp)].
  destruct (hide_fields s p Hp) as (Ht & Hd & Htm & Hn & _).
  assert (Hph : portal (this (hide s)) = Some p) by (now rewrite Ht).
  rewrite (hide_mounted (hide s) p Hph).
  revert Hd Htm Hn. generalize (hide s). intros h Hd Htm Hn.
  rewrite !advance_unfold.
  cbn [setTimeout onDom onWorld world this now timers dom set_timers set_dom].
  rewrite Hn, Htm.
  rewrite (insertTimer_twice_later _ (now (world s) + ms)%Z) by (simpl; lia).
  rewrite (insertTimer_twice_due (fire parse) _ (now (world s) + ms)%Z)
    by (simpl; lia || (intros z; apply fire_cleanup_twice)).
  f_equal. f_equal.
  destruct h as [m [d ov kl ae nw tm fr cl]]. simpl in *.
  unfold onWorld, set_timers, set_dom. simpl. rewrite Hd, classListRemove_idem. reflexivity.
Qed.

Lemma hide_twice_witness :
  advance textOnly 200 (hide (hide openModal)) = advance textOnly 200 (hide openModal).
Proof.
  apply (hide_twice_is_hide_once textOnly openModal 200). unfold ANIMATION_MS. lia.
Defined.

(** X6. Once the portal exists it is the portal for good, and no
    operation short of [destroy()] rebuilds or updates an element: through
    every sequence of [show], [hide], [updateProps], [updateContent],
    timers, frames and user input, each element of the document keeps its
    tag, its attributes, its text and its click listeners, and each
    element but the portal keeps its classes. What [updateProps] changes in
    title, size, class name, close button or backdrop behaviour does not
    reach the elements that [createElement] built. *)
Theorem existing_elements_are_never_rebuilt :
  forall (parse : string -> list Markup) (actions : list Action) (s : State) (p : nat),
    portal (this s) = Some p ->
    portal (this (run parse actions s)) = Some p /\
    retained p (dom (world s)) (dom (world (run parse actions s))).
Proof.
  intros parse actions s p Hp. apply (keeps_run parse p s actions s).
  split; [exact Hp | apply retained_refl].
Qed.

(** [new Modal({isOpen: true, title: 'Old'})] on a page with two buttons:
    the title is element 7. *)
Definition titled : State :=
  constructor textOnly
    {| isOpen := true; onClose := 0; title := Some "Old"; children := None; size := None;
       closeOnBackdropClick := None; closeOnEscape := None; className := None;
       showCloseButton := None |}
    (page 2).

Definition retitle : PartialProps :=
  {| new_isOpen := None; new_onClose := None; new_title := Some (Some "New");
     new_children := None; new_size := Some (Some large); new_closeOnBackdropClick := None;
     new_closeOnEscape := None; new_className := None; new_showCloseButton := None |}.

Lemma existing_elements_witness :
  (portal (this (run textOnly [CallUpdateProps retitle; Wait 200; Frame] titled)) = Some 3 /\
   retained 3 (dom (world titled))
     (dom (world (run textOnly [CallUpdateProps retitle; Wait 200; Frame] titled)))) /\
  title (props (this (run textOnly [CallUpdateProps retitle; Wait 200; Frame] titled)))
    = Some "New" /\
  textContent <$> dom (world titled) !! 7 = Some "Old" /\
  textContent <$> dom (world (run textOnly [CallUpdateProps retitle; Wait 200; Frame] titled))
                  !! 7 = Some "Old".
Proof.
  split; [|split; [by_eval | split; by_eval]].
  apply (existing_elements_are_never_rebuilt textOnly
           [CallUpdateProps retitle; Wait 200; Frame] titled 3).
  by_eval.
Defined.
